(** * FileCollection: an in-memory directory tree of file entries

    Shallow embedding of [openage/util/fslike/filecollection.py].

    The Python object holds [self.rootentries], a pair of two
    [OrderedDict]s: name -> file entry and name -> sub-directory (itself
    such a pair).  Every method walks or mutates that tree in place and
    either returns or raises.  Here

    - an [OrderedDict] is an association list in insertion order,
    - the tree is the inductive type [direntries],
    - a method is a function from the tree before the call to the tree
      after the call together with its outcome (value or exception), so
      that what a failing call has already mutated stays visible,
    - the pair handed out by [get_direntries] is a reference into the
      tree; since no directory is ever shared between two parents it is
      identified with the path that leads to it, and a write through the
      reference is [store] at that path. *)

From Stdlib Require Import List String Bool Arith Lia.
Import ListNotations.
Local Open Scope string_scope.
Local Open Scope list_scope.

(** ** Path segments *)

(** A path segment is a Python [bytes] object. *)
Definition bytes := string.

(** [b"/".join(parts)] *)
Definition join (parts : list bytes) : bytes := String.concat "/" parts.

(** [parts[-1]] and [parts[:-1]] of a non-empty list. *)
Definition last_part (parts : list bytes) : bytes := last parts EmptyString.
Definition parent_parts (parts : list bytes) : list bytes := removelast parts.
Arguments last_part : simpl never.
Arguments parent_parts : simpl never.

(** ** OrderedDict *)

Module OrderedDict.
Section Dict.
Variable V : Type.

Definition t := list (bytes * V).

(** [d[k]]; [None] stands for [KeyError]. *)
Fixpoint get (k : bytes) (d : t) : option V :=
  match d with
  | [] => None
  | (k', v) :: d' => if String.eqb k k' then Some v else get k d'
  end.

(** [k in d] *)
Definition contains (k : bytes) (d : t) : bool :=
  match get k d with Some _ => true | None => false end.

(** [d[k] = v]: an existing key keeps its position, a new key goes to
    the end. *)
Fixpoint set (k : bytes) (v : V) (d : t) : t :=
  match d with
  | [] => [(k, v)]
  | (k', v') :: d' =>
      if String.eqb k k' then (k', v) :: d' else (k', v') :: set k v d'
  end.

(** The dictionary without the item of key [k]. *)
Fixpoint remove (k : bytes) (d : t) : t :=
  match d with
  | [] => []
  | (k', v') :: d' =>
      if String.eqb k k' then d' else (k', v') :: remove k d'
  end.

(** [del d[k]]; [None] stands for [KeyError]. *)
Definition del (k : bytes) (d : t) : option t :=
  if contains k d then Some (remove k d) else None.

(** Iteration: the keys in insertion order. *)
Definition keys (d : t) : list bytes := map fst d.

(** Truth value of the dictionary: [bool(d)]. *)
Definition truthy (d : t) : bool :=
  match d with [] => false | _ :: _ => true end.
End Dict.
Arguments get {V} k d.
Arguments contains {V} k d.
Arguments set {V} k v d.
Arguments remove {V} k d.
Arguments del {V} k d.
Arguments keys {V} d.
Arguments truthy {V} d.
End OrderedDict.

Module OD := OrderedDict.

(** ** Python values, exceptions, file entries *)

(** Opaque Python objects handed through the collection: provider
    callables, stream handles, sizes and times.  Only identity and
    [is None] are ever inspected. *)
Inductive pyobj : Type :=
| PyNone
| PyObj (id : nat).

Definition is_None (v : pyobj) : bool :=
  match v with PyNone => true | PyObj _ => false end.

(** The argument an exception is built with. *)
Inductive exn_arg : Type :=
| ArgBytes (b : bytes)                        (* a [bytes] object            *)
| ArgStr (s : string)                         (* a literal [str]             *)
| ArgDecoded (prefix : string) (b : bytes).   (* [prefix + b.decode(errors='replace')] *)

Inductive exn : Type :=
| FileExistsError (a : exn_arg)
| FileNotFoundError (a : exn_arg)
| IsADirectoryError (a : exn_arg)
| NotADirectoryError (a : exn_arg)
| UnsupportedOperation (a : exn_arg)
| IOError (a : exn_arg)
| AttributeError
| TypeError.

(** [isinstance(e, IOError)]: [IOError] is [OSError]; the four file
    errors and [io.UnsupportedOperation] derive from it, [AttributeError]
    and [TypeError] do not. *)
Definition is_IOError (e : exn) : bool :=
  match e with
  | AttributeError | TypeError => false
  | _ => true
  end.

Inductive outcome (A : Type) : Type :=
| Return (a : A)
| Raise (e : exn).
Arguments Return {A} a.
Arguments Raise {A} e.

(** A method of [class FileEntry]: the base class body raises
    [UnsupportedOperation]; a subclass that overrides it returns a value,
    possibly [None]. *)
Inductive method : Type :=
| NotOverridden
| Returning (v : pyobj).

Record FileEntry : Type := mkFileEntry {
  fe_open_r : method;
  fe_open_w : method;
  fe_size : method;
  fe_mtime : method
}.

Definition call (name : string) (m : method) : outcome pyobj :=
  match m with
  | NotOverridden => Raise (UnsupportedOperation (ArgStr name))
  | Returning v => Return v
  end.

(** What [add_fileentry] is handed and stores: an instance of
    [FileEntry] (its annotation), or the 4-tuple
    [(open_r, open_w, filesize, mtime)] that
    [FileCollectionPath.add_file] builds. *)
Inductive fileentry : Type :=
| EntryObject (o : FileEntry)
| EntryTuple (open_r open_w filesize mtime : pyobj).

(** [entry.open_r()], [entry.open_w()], [entry.size()], [entry.mtime()]:
    a tuple has no such attribute. *)
Definition entry_open_r (e : fileentry) : outcome pyobj :=
  match e with
  | EntryObject o => call "FileEntry.open_r" (fe_open_r o)
  | EntryTuple _ _ _ _ => Raise AttributeError
  end.

Definition entry_open_w (e : fileentry) : outcome pyobj :=
  match e with
  | EntryObject o => call "FileEntry.open_w" (fe_open_w o)
  | EntryTuple _ _ _ _ => Raise AttributeError
  end.

Definition entry_size (e : fileentry) : outcome pyobj :=
  match e with
  | EntryObject o => call "FileEntry.size" (fe_size o)
  | EntryTuple _ _ _ _ => Raise AttributeError
  end.

Definition entry_mtime (e : fileentry) : outcome pyobj :=
  match e with
  | EntryObject o => call "FileEntry.mtime" (fe_mtime o)
  | EntryTuple _ _ _ _ => Raise AttributeError
  end.

(** [_, open_w, _, _ = entry]: an instance of [FileEntry] is not
    iterable. *)
Definition unpack_open_w (e : fileentry) : outcome pyobj :=
  match e with
  | EntryObject _ => Raise TypeError
  | EntryTuple _ open_w _ _ => Return open_w
  end.

(** ** The directory tree *)

(** [entries[0]] are the files, [entries[1]] the sub-directories. *)
#[warnings="-register-all"] Inductive direntries : Type :=
| Entries (files : OD.t fileentry) (subdirs : OD.t direntries).

Definition files (e : direntries) : OD.t fileentry :=
  match e with Entries f _ => f end.
Definition subdirs (e : direntries) : OD.t direntries :=
  match e with Entries _ d => d end.

(** [OrderedDict(), OrderedDict()] *)
Definition empty : direntries := Entries [] [].

(** The node a path leads to, if every segment names a sub-directory. *)
Fixpoint resolve (path : list bytes) (entries : direntries) : option direntries :=
  match path with
  | [] => Some entries
  | subdir :: rest =>
      match OD.get subdir (subdirs entries) with
      | Some child => resolve rest child
      | None => None
      end
  end.

(** Number of leading segments of [path] that name nested sub-directories. *)
Fixpoint depth (path : list bytes) (entries : direntries) : nat :=
  match path with
  | [] => 0
  | subdir :: rest =>
      match OD.get subdir (subdirs entries) with
      | Some child => S (depth rest child)
      | None => 0
      end
  end.

(** Write through a reference obtained at [path]: the node there becomes
    [node]; every node on the way keeps its place in its parent. *)
Fixpoint store (path : list bytes) (node : direntries) (entries : direntries)
  : direntries :=
  match path with
  | [] => node
  | subdir :: rest =>
      match OD.get subdir (subdirs entries) with
      | Some child =>
          Entries (files entries)
                  (OD.set subdir (store rest node child) (subdirs entries))
      | None => entries
      end
  end.

(** ** Methods: state and exceptions *)

(** A method body: from [self.rootentries] before to [self.rootentries]
    after, with the outcome. *)
Definition M (A : Type) : Type := direntries -> direntries * outcome A.

Definition ret {A} (a : A) : M A := fun root => (root, Return a).
Definition raise {A} (e : exn) : M A := fun root => (root, Raise e).
Definition bind {A B} (m : M A) (k : A -> M B) : M B :=
  fun root =>
    match m root with
    | (root', Return a) => k a root'
    | (root', Raise e) => (root', Raise e)
    end.
Definition lift {A} (o : outcome A) : M A := fun root => (root, o).
Definition write (path : list bytes) (node : direntries) : M unit :=
  fun root => (store path node root, Return tt).

(** [try: m  except IOError: handler] *)
Definition try_except_IOError {A} (m : M A) (handler : M A) : M A :=
  fun root =>
    match m root with
    | (root', Return a) => (root', Return a)
    | (root', Raise e) =>
        if is_IOError e then handler root' else (root', Raise e)
    end.

Declare Scope fc_scope.
Delimit Scope fc_scope with fc.
Notation "x <- m ;; k" := (bind m (fun x => k))
  (at level 61, m at next level, right associativity) : fc_scope.
Notation "m ;;; k" := (bind m (fun _ => k))
  (at level 61, right associativity) : fc_scope.
Local Open Scope fc_scope.

(** The result tree and the outcome of a call. *)
Definition state_of {A} (r : direntries * outcome A) : direntries := fst r.
Definition outcome_of {A} (r : direntries * outcome A) : outcome A := snd r.

(** ** FileCollection *)

(** The loop of [get_direntries]: [rest] are the segments still to walk,
    [idx] the index of the next one in [parts], [entries] the current
    node.  Returns the node as the walk leaves it and the node reached. *)
Fixpoint get_direntries_loop (parts : list bytes) (create : bool) (idx : nat)
    (rest : list bytes) (entries : direntries) {struct rest}
  : direntries * outcome direntries :=
  match rest with
  | [] => (entries, Return entries)
  | subdir :: rest' =>
      match OD.get subdir (subdirs entries) with
      | None =>
          if create then
            if OD.contains subdir (files entries) then
              (entries,
               Raise (FileExistsError (ArgBytes (join (firstn (S idx) parts)))))
            else
              let created := OD.set subdir empty (subdirs entries) in
              let '(child', r) :=
                get_direntries_loop parts create (S idx) rest' empty in
              (Entries (files entries) (OD.set subdir child' created), r)
          else
            (entries,
             Raise (FileNotFoundError
                      (ArgDecoded "No such directory: "
                                  (join (firstn (S idx) parts)))))
      | Some child =>
          let '(child', r) :=
            get_direntries_loop parts create (S idx) rest' child in
          (Entries (files entries) (OD.set subdir child' (subdirs entries)), r)
      end
  end.

Definition get_direntries (parts : list bytes) (create : bool) : M direntries :=
  get_direntries_loop parts create 0 parts.

Definition add_fileentry (parts : list bytes) (entry : fileentry) : M unit :=
  match parts with
  | [] => raise (IsADirectoryError (ArgStr "FileCollection.root is a directory"))
  | _ =>
      entries <- get_direntries (parent_parts parts) true ;;
      let name := last_part parts in
      if OD.contains name (subdirs entries) then
        raise (IsADirectoryError (ArgBytes (join parts)))
      else
        write (parent_parts parts)
              (Entries (OD.set name entry (files entries)) (subdirs entries))
  end.

Definition get_fileentry (parts : list bytes) : M fileentry :=
  match parts with
  | [] => raise (IsADirectoryError (ArgStr "FileCollection.root is a directory"))
  | _ =>
      entries <- get_direntries (parent_parts parts) false ;;
      let name := last_part parts in
      if OD.contains name (subdirs entries) then
        raise (IsADirectoryError (ArgBytes (join parts)))
      else
        match OD.get name (files entries) with
        | None => raise (FileNotFoundError (ArgBytes (join parts)))
        | Some entry => ret entry
        end
  end.

Definition open_r (parts : list bytes) : M pyobj :=
  entry <- get_fileentry parts ;;
  handle <- lift (entry_open_r entry) ;;
  if is_None handle then
    raise (UnsupportedOperation (ArgDecoded "not readable: " (join parts)))
  else ret handle.

Definition open_w (parts : list bytes) : M pyobj :=
  entry <- get_fileentry parts ;;
  handle <- lift (entry_open_w entry) ;;
  if is_None handle then
    raise (UnsupportedOperation (ArgDecoded "not writable: " (join parts)))
  else ret handle.

(** [list] is a generator; the model gives the names it yields, or the
    exception its first step raises. *)
Definition list_ (parts : list bytes) : M (list bytes) :=
  entries <- get_direntries parts false ;;
  ret (OD.keys (subdirs entries) ++ OD.keys (files entries)).

Definition filesize (parts : list bytes) : M pyobj :=
  entry <- get_fileentry parts ;;
  lift (entry_size entry).

Definition mtime (parts : list bytes) : M pyobj :=
  entry <- get_fileentry parts ;;
  lift (entry_mtime entry).

Definition mkdirs (parts : list bytes) : M unit :=
  get_direntries parts true ;;; ret tt.

Definition rmdir (parts : list bytes) : M unit :=
  match parts with
  | [] => raise (UnsupportedOperation (ArgStr "can't rmdir FileCollection.root"))
  | _ =>
      parent <- get_direntries (parent_parts parts) false ;;
      let parent_files := files parent in
      let parent_dirs := subdirs parent in
      let name := last_part parts in
      if OD.contains name parent_files then
        raise (NotADirectoryError (ArgBytes (join parts)))
      else
        match OD.get name parent_dirs with
        | None => raise (FileNotFoundError (ArgBytes (join parts)))
        | Some target =>
            if OD.truthy (files target) || OD.truthy (subdirs target) then
              raise (IOError (ArgDecoded "Directory not empty: " (join parts)))
            else
              write (parent_parts parts)
                    (Entries parent_files (OD.remove name parent_dirs))
        end
  end.

Definition unlink (parts : list bytes) : M unit :=
  match parts with
  | [] => raise (IsADirectoryError (ArgStr "FileCollection.root"))
  | _ =>
      parent <- get_direntries (parent_parts parts) false ;;
      let parent_files := files parent in
      let parent_dirs := subdirs parent in
      let name := last_part parts in
      if OD.contains name parent_dirs then
        raise (IsADirectoryError (ArgBytes (join parts)))
      else
        match OD.del name parent_files with
        | None => raise (FileNotFoundError (ArgBytes (join parts)))
        | Some remaining =>
            write (parent_parts parts) (Entries remaining parent_dirs)
        end
  end.

Definition touch (parts : list bytes) : M unit :=
  raise (UnsupportedOperation (ArgStr "FileCollection.touch")).

Definition rename (srcparts tgtparts : list bytes) : M unit :=
  raise (UnsupportedOperation (ArgStr "FileCollection.rename")).

Definition is_file (parts : list bytes) : M bool :=
  try_except_IOError (get_fileentry parts ;;; ret true) (ret false).

Definition is_dir (parts : list bytes) : M bool :=
  try_except_IOError (get_direntries parts false ;;; ret true) (ret false).

Definition writable (parts : list bytes) : M bool :=
  try_except_IOError
    (entry <- get_fileentry parts ;;
     w <- lift (unpack_open_w entry) ;;
     ret (negb (is_None w)))
    (ret false).

Definition watch (parts : list bytes) (callback : pyobj) : M bool := ret false.

Definition poll_watches : M unit := ret tt.

(** [FileCollectionPath.add_file] *)
Definition add_file (parts : list bytes) (open_r open_w filesize mtime : pyobj)
  : M unit :=
  add_fileentry parts (EntryTuple open_r open_w filesize mtime).

(** ** Invariants of the tree *)

(** [P] holds of the two dictionaries of every node of the tree. *)
Fixpoint all_nodes (P : OD.t fileentry -> OD.t direntries -> bool)
    (e : direntries) : bool :=
  match e with
  | Entries f d =>
      P f d &&
      (fix children (l : OD.t direntries) : bool :=
         match l with
         | [] => true
         | (_, c) :: l' => all_nodes P c && children l'
         end) d
  end.

Fixpoint nodupb (l : list bytes) : bool :=
  match l with
  | [] => true
  | k :: l' => negb (existsb (String.eqb k) l') && nodupb l'
  end.

(** No name is a key of both dictionaries of a node. *)
Definition no_shared_name (f : OD.t fileentry) (d : OD.t direntries) : bool :=
  forallb (fun k => negb (OD.contains k d)) (OD.keys f).

(** A dictionary has each key once. *)
Definition keys_once (f : OD.t fileentry) (d : OD.t direntries) : bool :=
  nodupb (OD.keys f) && nodupb (OD.keys d).

Definition names_disjoint : direntries -> bool := all_nodes no_shared_name.
Definition unique_keys : direntries -> bool := all_nodes keys_once.

(** ** Observations used to state the properties *)

(** The file entry stored under a path, looked up structurally. *)
Definition file_at (path : list bytes) (root : direntries) : option fileentry :=
  match path with
  | [] => None
  | _ =>
      match resolve (parent_parts path) root with
      | Some parent => OD.get (last_part path) (files parent)
      | None => None
      end
  end.

(** [q] is a strict prefix of [p]. *)
Definition strict_prefix (q p : list bytes) : Prop :=
  exists r, r <> [] /\ p = q ++ r.

(** [q] extends [p] (or is [p]). *)
Definition extends (q p : list bytes) : Prop :=
  exists r, q = p ++ r.

(** The public calls on a collection, and the states a collection can be
    in. *)
Inductive fc_call : Type :=
| CallAddFileentry (parts : list bytes) (entry : fileentry)
| CallGetFileentry (parts : list bytes)
| CallGetDirentries (parts : list bytes) (create : bool)
| CallOpenR (parts : list bytes)
| CallOpenW (parts : list bytes)
| CallList (parts : list bytes)
| CallFilesize (parts : list bytes)
| CallMtime (parts : list bytes)
| CallMkdirs (parts : list bytes)
| CallRmdir (parts : list bytes)
| CallUnlink (parts : list bytes)
| CallTouch (parts : list bytes)
| CallRename (srcparts tgtparts : list bytes)
| CallIsFile (parts : list bytes)
| CallIsDir (parts : list bytes)
| CallWritable (parts : list bytes)
| CallWatch (parts : list bytes) (callback : pyobj)
| CallPollWatches.

(** The tree a call leaves behind, whether it returns or raises. *)
Definition after (c : fc_call) (root : direntries) : direntries :=
  match c with
  | CallAddFileentry parts entry => state_of (add_fileentry parts entry root)
  | CallGetFileentry parts => state_of (get_fileentry parts root)
  | CallGetDirentries parts create => state_of (get_direntries parts create root)
  | CallOpenR parts => state_of (open_r parts root)
  | CallOpenW parts => state_of (open_w parts root)
  | CallList parts => state_of (list_ parts root)
  | CallFilesize parts => state_of (filesize parts root)
  | CallMtime parts => state_of (mtime parts root)
  | CallMkdirs parts => state_of (mkdirs parts root)
  | CallRmdir parts => state_of (rmdir parts root)
  | CallUnlink parts => state_of (unlink parts root)
  | CallTouch parts => state_of (touch parts root)
  | CallRename srcparts tgtparts => state_of (rename srcparts tgtparts root)
  | CallIsFile parts => state_of (is_file parts root)
  | CallIsDir parts => state_of (is_dir parts root)
  | CallWritable parts => state_of (writable parts root)
  | CallWatch parts callback => state_of (watch parts callback root)
  | CallPollWatches => state_of (poll_watches root)
  end.

Inductive reachable : direntries -> Prop :=
| reachable_new : reachable empty
| reachable_call (c : fc_call) (root : direntries) :
    reachable root -> reachable (after c root).

(** ** Example collections *)

Definition read_only_entry : fileentry :=
  EntryObject (mkFileEntry (Returning (PyObj 1)) (Returning PyNone)
                           (Returning (PyObj 10)) NotOverridden).

Definition bare_entry : fileentry :=
  EntryObject (mkFileEntry NotOverridden NotOverridden NotOverridden NotOverridden).

Definition tuple_entry : fileentry := EntryTuple PyNone PyNone PyNone PyNone.

(** A collection with file [a/b.txt] and directory [a/d]. *)
Definition sample : direntries :=
  state_of (mkdirs ["a"; "d"]
              (state_of (add_fileentry ["a"; "b.txt"] read_only_entry empty))).

(** ** FileCollectionPath.add_file_from_path *)

(** The [Path] handed to [add_file_from_path], as far as the method
    looks at it: what its [writable()] answers at the time of the call,
    and its bound methods [open_r], [open_w], [filesize] and [mtime],
    which are objects and never [None]. *)
Record Path : Type := mkPath {
  path_writable : bool;
  path_open_r : nat;
  path_open_w : nat;
  path_filesize : nat;
  path_mtime : nat
}.

Definition add_file_from_path (parts : list bytes) (path : Path) : M unit :=
  let open_w :=
    if path_writable path then PyObj (path_open_w path) else PyNone in
  add_file parts (PyObj (path_open_r path)) open_w
           (PyObj (path_filesize path)) (PyObj (path_mtime path)).

(** The calls that are not meant to change the collection: everything
    but registration, [mkdirs], [rmdir], [unlink] and a creating
    [get_direntries]. *)
Definition reads_only (c : fc_call) : bool :=
  match c with
  | CallAddFileentry _ _ | CallMkdirs _ | CallRmdir _ | CallUnlink _ => false
  | CallGetDirentries _ create => negb create
  | _ => true
  end.

(** A readable and writable source path, and a read-only one. *)
Definition rw_path : Path := mkPath true 1 2 3 4.
Definition ro_path : Path := mkPath false 5 6 7 8.

(* ================================================================== *)
(** * Properties *)

(** ** OrderedDict *)

Section DictFacts.
Variable V : Type.
Implicit Types (d : OD.t V) (k : bytes) (v : V).

Lemma get_set_same k v d : OD.get k (OD.set k v d) = Some v.
Proof.
  induction d as [|[k' v'] d IH]; simpl.
  - now rewrite String.eqb_refl.
  - destruct (String.eqb k k') eqn:E; simpl; rewrite E; auto.
Qed.

Lemma get_set_other k k' v d :
  k <> k' -> OD.get k' (OD.set k v d) = OD.get k' d.
Proof.
  intros Hne. induction d as [|[k0 v0] d IH]; simpl.
  - destruct (String.eqb_spec k' k); congruence.
  - destruct (String.eqb_spec k k0); simpl.
    + subst k0. destruct (String.eqb_spec k' k); congruence.
    + now rewrite IH.
Qed.

Lemma set_get_id k v d : OD.get k d = Some v -> OD.set k v d = d.
Proof.
  induction d as [|[k' v'] d IH]; simpl; [discriminate|].
  destruct (String.eqb k k'); intros H.
  - congruence.
  - now rewrite IH.
Qed.

Lemma set_set k v v' d : OD.set k v (OD.set k v' d) = OD.set k v d.
Proof.
  induction d as [|[k0 v0] d IH]; simpl.
  - now rewrite String.eqb_refl.
  - destruct (String.eqb k k0) eqn:E; simpl; rewrite E; congruence.
Qed.

Lemma contains_get k d :
  OD.contains k d = true <-> exists v, OD.get k d = Some v.
Proof.
  unfold OD.contains. destruct (OD.get k d); split; eauto; try discriminate.
  intros [? ?]; discriminate.
Qed.

Lemma contains_false k d : OD.contains k d = false <-> OD.get k d = None.
Proof.
  unfold OD.contains. destruct (OD.get k d); split; congruence.
Qed.

Lemma get_In k d : OD.get k d <> None <-> In k (OD.keys d).
Proof.
  induction d as [|[k' v'] d IH]; simpl.
  - split; [congruence | tauto].
  - destruct (String.eqb_spec k k').
    + split; [auto | congruence].
    + rewrite IH. split; [auto | intros [?|?]; congruence || auto].
Qed.

Lemma contains_In k d : OD.contains k d = true <-> In k (OD.keys d).
Proof.
  rewrite <- get_In. unfold OD.contains.
  destruct (OD.get k d); split; congruence.
Qed.

Lemma keys_set_present k v d :
  OD.get k d <> None -> OD.keys (OD.set k v d) = OD.keys d.
Proof.
  induction d as [|[k' v'] d IH]; simpl; [congruence|].
  destruct (String.eqb k k'); simpl; intros H; [reflexivity|].
  f_equal. auto.
Qed.

Lemma keys_set_absent k v d :
  OD.get k d = None -> OD.keys (OD.set k v d) = OD.keys d ++ [k].
Proof.
  induction d as [|[k' v'] d IH]; simpl; [reflexivity|].
  destruct (String.eqb k k'); simpl; intros H; [discriminate|].
  f_equal. auto.
Qed.

Lemma In_keys_set x k v d :
  In x (OD.keys (OD.set k v d)) -> x = k \/ In x (OD.keys d).
Proof.
  destruct (OD.get k d) eqn:E.
  - rewrite keys_set_present by congruence. auto.
  - rewrite keys_set_absent by assumption. rewrite in_app_iff. simpl. intuition auto.
Qed.

Lemma In_keys_remove x k d :
  In x (OD.keys (OD.remove k d)) -> In x (OD.keys d).
Proof.
  induction d as [|[k' v'] d IH]; simpl; [tauto|].
  destruct (String.eqb k k'); simpl; tauto.
Qed.

Lemma get_remove_other k k' d :
  k <> k' -> OD.get k' (OD.remove k d) = OD.get k' d.
Proof.
  intros Hne. induction d as [|[k0 v0] d IH]; simpl; [reflexivity|].
  destruct (String.eqb_spec k k0); simpl.
  - subst k0. destruct (String.eqb_spec k' k); congruence.
  - now rewrite IH.
Qed.

Lemma get_remove_same k d :
  NoDup (OD.keys d) -> OD.get k (OD.remove k d) = None.
Proof.
  induction d as [|[k0 v0] d IH]; simpl; [reflexivity|].
  intros Hnd. inversion Hnd as [|? ? Hnot Hnd']; subst.
  destruct (String.eqb_spec k k0); simpl.
  - subst k0. destruct (OD.get k d) eqn:E; [|reflexivity].
    exfalso. apply Hnot. apply get_In. congruence.
  - destruct (String.eqb_spec k k0); [congruence | auto].
Qed.

Lemma keys_remove k d :
  NoDup (OD.keys d) ->
  OD.keys (OD.remove k d)
  = filter (fun x => negb (String.eqb x k)) (OD.keys d).
Proof.
  induction d as [|[k0 v0] d IH]; simpl; [reflexivity|].
  intros Hnd. inversion Hnd as [|? ? Hnot Hnd']; subst.
  destruct (String.eqb_spec k k0); simpl.
  - subst k0. rewrite String.eqb_refl. simpl.
    symmetry. apply forallb_filter_id. apply forallb_forall.
    intros x Hx. destruct (String.eqb_spec x k); [subst; contradiction | reflexivity].
  - destruct (String.eqb_spec k0 k); [congruence|]. simpl. f_equal. auto.
Qed.

Lemma NoDup_keys_remove k d :
  NoDup (OD.keys d) -> NoDup (OD.keys (OD.remove k d)).
Proof.
  induction d as [|[k0 v0] d IH]; simpl; [auto|].
  intros Hnd. inversion Hnd as [|? ? Hnot Hnd']; subst.
  destruct (String.eqb k k0); simpl; [assumption|].
  constructor; [|auto]. intros Hin. apply Hnot. eapply In_keys_remove; eauto.
Qed.

Lemma NoDup_keys_set k v d :
  NoDup (OD.keys d) -> NoDup (OD.keys (OD.set k v d)).
Proof.
  intros Hnd. destruct (OD.get k d) eqn:E.
  - rewrite keys_set_present by congruence. assumption.
  - rewrite keys_set_absent by assumption.
    apply NoDup_app; [assumption | repeat constructor; simpl; tauto |].
    intros x Hx [<-|[]]. apply get_In in Hx. congruence.
Qed.
End DictFacts.

(** ** Walking the tree *)

Lemma contains_same_keys (A B : Type) (k : bytes) (d : OD.t A) (d' : OD.t B) :
  OD.keys d = OD.keys d' -> OD.contains k d = OD.contains k d'.
Proof.
  intros H.
  destruct (OD.contains k d) eqn:E1, (OD.contains k d') eqn:E2; auto.
  - apply contains_In in E1. rewrite H in E1. apply contains_In in E1. congruence.
  - apply contains_In in E2. rewrite <- H in E2. apply contains_In in E2. congruence.
Qed.

Lemma resolve_app (a b : list bytes) (t : direntries) :
  resolve (a ++ b) t
  = match resolve a t with Some n => resolve b n | None => None end.
Proof.
  revert t. induction a as [|s a IH]; intros t; simpl; [reflexivity|].
  destruct (OD.get s (subdirs t)); auto.
Qed.

Lemma parts_split (parts : list bytes) :
  parts <> [] -> parts = parent_parts parts ++ [last_part parts].
Proof. intros H. now apply app_removelast_last. Qed.

(** Without [create] the walk leaves the tree as it is; it returns the
    node [resolve] finds, or raises [FileNotFoundError] for the prefix up
    to the first segment that is not a sub-directory. *)
Lemma loop_lookup (rest parts : list bytes) (idx : nat) (t : direntries) :
  get_direntries_loop parts false idx rest t
  = (t, match resolve rest t with
        | Some n => Return n
        | None =>
            Raise (FileNotFoundError
                     (ArgDecoded "No such directory: "
                        (join (firstn (S (idx + depth rest t)) parts))))
        end).
Proof.
  revert idx t. induction rest as [|s rest IH]; intros idx [f d]; simpl.
  - reflexivity.
  - destruct (OD.get s d) as [child|] eqn:E.
    + rewrite IH. rewrite (set_get_id _ _ _ _ E).
      replace (S idx + depth rest child) with (idx + S (depth rest child)) by lia.
      reflexivity.
    + now rewrite Nat.add_0_r.
Qed.

Lemma get_direntries_lookup (parts : list bytes) (t : direntries) :
  get_direntries parts false t
  = (t, match resolve parts t with
        | Some n => Return n
        | None =>
            Raise (FileNotFoundError
                     (ArgDecoded "No such directory: "
                        (join (firstn (S (depth parts t)) parts))))
        end).
Proof. unfold get_direntries. now rewrite loop_lookup. Qed.

(** With [create], a path that already resolves is walked without any
    change. *)
Lemma loop_create_existing (rest parts : list bytes) (idx : nat)
    (t n : direntries) :
  resolve rest t = Some n ->
  get_direntries_loop parts true idx rest t = (t, Return n).
Proof.
  revert idx t. induction rest as [|s rest IH]; intros idx [f d]; simpl.
  - congruence.
  - destruct (OD.get s d) as [child|] eqn:E; [|discriminate].
    intros H. rewrite (IH _ _ H). now rewrite (set_get_id _ _ _ _ E).
Qed.

(** Walking the same path with [create] a second time changes nothing
    and ends the same way. *)
Lemma loop_create_again (rest parts : list bytes) (idx : nat)
    (t t1 : direntries) (r : outcome direntries) :
  get_direntries_loop parts true idx rest t = (t1, r) ->
  get_direntries_loop parts true idx rest t1 = (t1, r).
Proof.
  revert idx t t1. induction rest as [|s rest IH]; intros idx [f d] t1; simpl.
  - intros H. injection H as <- <-. reflexivity.
  - destruct (OD.get s d) as [child|] eqn:E.
    + destruct (get_direntries_loop parts true (S idx) rest child)
        as [child' r'] eqn:L.
      intros H. injection H as <- <-. simpl.
      rewrite get_set_same. rewrite (IH _ _ _ L). now rewrite set_set.
    + destruct (OD.contains s f) eqn:C.
      * intros H. injection H as <- <-. simpl. now rewrite E, C.
      * destruct (get_direntries_loop parts true (S idx) rest empty)
          as [child' r'] eqn:L.
        intros H. injection H as <- <-. simpl.
        rewrite get_set_same. rewrite (IH _ _ _ L). now rewrite set_set.
Qed.

(** After a walk that returns, the path resolves to the node returned. *)
Lemma loop_create_resolve (rest parts : list bytes) (idx : nat)
    (t t1 n : direntries) :
  get_direntries_loop parts true idx rest t = (t1, Return n) ->
  resolve rest t1 = Some n.
Proof.
  revert idx t t1. induction rest as [|s rest IH]; intros idx [f d] t1; simpl.
  - intros H. injection H as <- <-. reflexivity.
  - destruct (OD.get s d) as [child|] eqn:E.
    + destruct (get_direntries_loop parts true (S idx) rest child)
        as [child' r'] eqn:L.
      intros H. injection H as <- ->. simpl. rewrite get_set_same. eauto.
    + destruct (OD.contains s f) eqn:C; [discriminate|].
      destruct (get_direntries_loop parts true (S idx) rest empty)
        as [child' r'] eqn:L.
      intros H. injection H as <- ->. simpl. rewrite get_set_same. eauto.
Qed.

(** The node a creating walk returns either was there before, and then
    nothing was created, or is a new empty directory. *)
Lemma loop_create_fresh (rest parts : list bytes) (idx : nat)
    (t t1 n : direntries) :
  get_direntries_loop parts true idx rest t = (t1, Return n) ->
  (resolve rest t = Some n /\ t1 = t) \/ (resolve rest t = None /\ n = empty).
Proof.
  revert idx t t1. induction rest as [|s rest IH]; intros idx [f d] t1; simpl.
  - intros H. injection H as <- <-. auto.
  - destruct (OD.get s d) as [child|] eqn:E.
    + destruct (get_direntries_loop parts true (S idx) rest child)
        as [child' r'] eqn:L.
      intros H. injection H as <- ->.
      destruct (IH _ _ _ L) as [[R ->]|[R ->]]; [left|right]; split; auto.
      now rewrite (set_get_id _ _ _ _ E).
    + destruct (OD.contains s f) eqn:C; [discriminate|].
      destruct (get_direntries_loop parts true (S idx) rest empty)
        as [child' r'] eqn:L.
      intros H. injection H as <- ->. right. split; [reflexivity|].
      destruct (IH _ _ _ L) as [[R _]|[_ ->]]; [|reflexivity].
      destruct rest; simpl in R; congruence.
Qed.

(** The directories after a creating walk that returns: those before and
    the prefixes of the path walked. *)
Lemma loop_create_dirs (rest parts : list bytes) (idx : nat)
    (t t1 n : direntries) :
  get_direntries_loop parts true idx rest t = (t1, Return n) ->
  forall q, resolve q t1 <> None <->
            (resolve q t <> None \/ exists r, rest = q ++ r).
Proof.
  revert idx t t1. induction rest as [|s rest IH]; intros idx [f d] t1; simpl.
  - intros H. injection H as <- <-. intros q. split; [auto|].
    intros [H|[r H]]; [assumption|].
    symmetry in H. apply app_eq_nil in H as [-> _]. simpl. congruence.
  - assert (Hstep : forall child child' d',
      (forall k, k <> s -> OD.get k d' = OD.get k d) ->
      OD.get s d' = Some child' ->
      (forall q, resolve q child' <> None <->
                 (resolve q child <> None \/ exists r, rest = q ++ r)) ->
      (OD.get s d = Some child \/ (OD.get s d = None /\ child = empty)) ->
      forall q, resolve q (Entries f d') <> None <->
                (resolve q (Entries f d) <> None \/ exists r, s :: rest = q ++ r)).
    { intros child child' d' Hother Hs Hrec Hold [|k q]; simpl.
      - split; [left; congruence | congruence].
      - destruct (String.eqb_spec k s) as [->|Hk].
        + rewrite Hs, Hrec.
          destruct Hold as [->|[-> ->]].
          * split; (intros [H|[r H]]; [left; assumption|right; exists r]);
              simpl in *; congruence.
          * split.
            -- intros [H|[r H]].
               ++ right. destruct q; simpl in H; [|congruence].
                  exists rest. reflexivity.
               ++ right. exists r. simpl. congruence.
            -- intros [H|[r H]]; [congruence|].
               right. exists r. simpl in H. congruence.
        + rewrite (Hother _ Hk). split; [auto|].
          intros [H|[r H]]; [assumption|]. simpl in H. congruence. }
    destruct (OD.get s d) as [child|] eqn:E.
    + destruct (get_direntries_loop parts true (S idx) rest child)
        as [child' r'] eqn:L.
      intros H. injection H as <- ->.
      apply Hstep with (child := child) (child' := child'); eauto.
      * intros k Hk. apply get_set_other. congruence.
      * apply get_set_same.
    + destruct (OD.contains s f) eqn:C; [discriminate|].
      destruct (get_direntries_loop parts true (S idx) rest empty)
        as [child' r'] eqn:L.
      intros H. injection H as <- ->.
      apply Hstep with (child := empty) (child' := child'); eauto.
      * intros k Hk. rewrite !get_set_other by congruence. reflexivity.
      * apply get_set_same.
Qed.

(** A creating walk, returning or raising, leaves every file dictionary
    as it was; the directories it adds hold no file. *)
Lemma loop_create_files (rest parts : list bytes) (idx : nat)
    (t t1 : direntries) (r : outcome direntries) :
  get_direntries_loop parts true idx rest t = (t1, r) ->
  forall q, match resolve q t with
            | Some n => option_map files (resolve q t1) = Some (files n)
            | None => forall n1, resolve q t1 = Some n1 -> files n1 = []
            end.
Proof.
  revert idx t t1 r. induction rest as [|s rest IH]; intros idx [f d] t1 r; simpl.
  - intros H. injection H as <- <-. intros q.
    destruct (resolve q (Entries f d)); simpl; [reflexivity | discriminate].
  - destruct (OD.get s d) as [child|] eqn:E.
    + destruct (get_direntries_loop parts true (S idx) rest child)
        as [child' r'] eqn:L.
      intros H. injection H as <- <-. intros [|k q]; simpl; [reflexivity|].
      destruct (String.eqb_spec k s) as [->|Hk].
      * rewrite get_set_same, E. apply (IH _ _ _ _ L).
      * rewrite get_set_other by congruence.
        destruct (OD.get k d) as [c|]; [|discriminate].
        destruct (resolve q c); simpl; [reflexivity | discriminate].
    + destruct (OD.contains s f) eqn:C.
      * intros H. injection H as <- <-. intros q.
        destruct (resolve q (Entries f d)); simpl; [reflexivity | discriminate].
      * destruct (get_direntries_loop parts true (S idx) rest empty)
          as [child' r'] eqn:L.
        intros H. injection H as <- <-. intros [|k q]; simpl; [reflexivity|].
        destruct (String.eqb_spec k s) as [->|Hk].
        -- rewrite get_set_same, E. intros n1 Hn1.
           pose proof (IH _ _ _ _ L q) as Hq.
           destruct q; simpl in Hq.
           ++ simpl in Hn1. injection Hn1 as <-. simpl in Hq. congruence.
           ++ apply Hq. assumption.
        -- rewrite !get_set_other by congruence.
           destruct (OD.get k d) as [c|]; [|discriminate].
           destruct (resolve q c); simpl; [reflexivity | discriminate].
Qed.

(** ** Writing through a reference *)

Lemma resolve_store_same (path : list bytes) (node t : direntries) :
  resolve path t <> None -> resolve path (store path node t) = Some node.
Proof.
  revert t. induction path as [|s path IH]; intros [f d]; simpl; [reflexivity|].
  destruct (OD.get s d) as [child|] eqn:E; [|congruence].
  intros H. simpl. rewrite get_set_same. auto.
Qed.

Lemma store_resolve_id (path : list bytes) (node t : direntries) :
  resolve path t = Some node -> store path node t = t.
Proof.
  revert t. induction path as [|s path IH]; intros [f d]; simpl; [congruence|].
  destruct (OD.get s d) as [child|] eqn:E; [|discriminate].
  intros H. rewrite (IH _ H). now rewrite (set_get_id _ _ _ _ E).
Qed.

(** Below the node written, paths lead into the new node. *)
Lemma resolve_store_below (path r : list bytes) (node t : direntries) :
  resolve path t <> None ->
  resolve (path ++ r) (store path node t) = resolve r node.
Proof.
  intros H. rewrite resolve_app, resolve_store_same by assumption. reflexivity.
Qed.

(** Paths that do not pass through the node written lead to a directory
    exactly when they did before. *)
Lemma resolve_store_aside (path : list bytes) (node t : direntries) :
  resolve path t <> None ->
  forall q, ~ extends q path ->
            (resolve q (store path node t) <> None <-> resolve q t <> None).
Proof.
  revert t. induction path as [|s path IH]; intros [f d]; simpl.
  - intros _ q Hq. exfalso. apply Hq. exists q. reflexivity.
  - destruct (OD.get s d) as [child|] eqn:E; [|congruence].
    intros H [|k q] Hq; simpl; [split; congruence|].
    destruct (String.eqb_spec k s) as [->|Hk].
    + rewrite get_set_same, E. apply IH; [assumption|].
      intros [r ->]. apply Hq. exists r. reflexivity.
    + rewrite get_set_other by congruence. reflexivity.
Qed.

(** Replacing only the file dictionary of a node keeps every directory
    in place, with the same sub-directory names, and every other file
    dictionary. *)
Lemma store_files_resolve (path : list bytes) (f f' : OD.t fileentry)
    (d : OD.t direntries) (t : direntries) :
  resolve path t = Some (Entries f d) ->
  forall q, match resolve q t with
            | None => resolve q (store path (Entries f' d) t) = None
            | Some n =>
                exists n', resolve q (store path (Entries f' d) t) = Some n'
                           /\ OD.keys (subdirs n') = OD.keys (subdirs n)
                           /\ (q <> path -> files n' = files n)
            end.
Proof.
  revert t. induction path as [|s path IH]; intros [F D]; simpl.
  - intros H. injection H as -> ->. intros [|k q]; simpl.
    + eexists; repeat split; congruence.
    + destruct (OD.get k d) as [c|]; [|reflexivity].
      destruct (resolve q c) as [n|]; [|reflexivity].
      exists n. auto.
  - destruct (OD.get s D) as [child|] eqn:E; [|discriminate].
    intros H [|k q]; simpl.
    + eexists; repeat split.
      simpl. apply keys_set_present. congruence.
    + destruct (String.eqb_spec k s) as [->|Hk].
      * rewrite get_set_same, E. specialize (IH _ H q).
        destruct (resolve q child) as [n|]; [|assumption].
        destruct IH as (n' & R & K & Fi). exists n'. repeat split; auto.
        intros Hne. apply Fi. congruence.
      * rewrite get_set_other by congruence.
        destruct (OD.get k D) as [c|]; [|reflexivity].
        destruct (resolve q c) as [n|]; [|reflexivity].
        exists n. auto.
Qed.

Lemma store_files_depth (path : list bytes) (f f' : OD.t fileentry)
    (d : OD.t direntries) (t : direntries) :
  resolve path t = Some (Entries f d) ->
  forall q, depth q (store path (Entries f' d) t) = depth q t.
Proof.
  revert t. induction path as [|s path IH]; intros [F D]; simpl.
  - intros H. injection H as -> ->. intros [|k q]; reflexivity.
  - destruct (OD.get s D) as [child|] eqn:E; [|discriminate].
    intros H [|k q]; simpl; [reflexivity|].
    destruct (String.eqb_spec k s) as [->|Hk].
    + rewrite get_set_same, E. f_equal. auto.
    + rewrite get_set_other by congruence. reflexivity.
Qed.

(** ** The methods in terms of [resolve] *)

Lemma get_fileentry_lookup (parts : list bytes) (t : direntries) :
  parts <> [] ->
  get_fileentry parts t
  = (t, match resolve (parent_parts parts) t with
        | None =>
            Raise (FileNotFoundError
                     (ArgDecoded "No such directory: "
                        (join (firstn (S (depth (parent_parts parts) t))
                                      (parent_parts parts)))))
        | Some n =>
            if OD.contains (last_part parts) (subdirs n) then
              Raise (IsADirectoryError (ArgBytes (join parts)))
            else
              match OD.get (last_part parts) (files n) with
              | None => Raise (FileNotFoundError (ArgBytes (join parts)))
              | Some entry => Return entry
              end
        end).
Proof.
  intros Hne. unfold get_fileentry. destruct parts as [|s parts]; [congruence|].
  unfold bind. rewrite get_direntries_lookup.
  destruct (resolve (parent_parts (s :: parts)) t) as [n|]; [|reflexivity].
  destruct (OD.contains _ (subdirs n)); [reflexivity|].
  destruct (OD.get _ (files n)); reflexivity.
Qed.

Lemma get_fileentry_state (parts : list bytes) (t : direntries) :
  state_of (get_fileentry parts t) = t.
Proof.
  destruct parts as [|s parts]; [reflexivity|].
  rewrite get_fileentry_lookup by congruence. reflexivity.
Qed.

Lemma is_dir_lookup (parts : list bytes) (t : direntries) :
  is_dir parts t
  = (t, Return (match resolve parts t with Some _ => true | None => false end)).
Proof.
  unfold is_dir, try_except_IOError, bind. rewrite get_direntries_lookup.
  destruct (resolve parts t); reflexivity.
Qed.

Lemma list_lookup (parts : list bytes) (t : direntries) :
  list_ parts t
  = (t, match resolve parts t with
        | Some n => Return (OD.keys (subdirs n) ++ OD.keys (files n))
        | None =>
            Raise (FileNotFoundError
                     (ArgDecoded "No such directory: "
                        (join (firstn (S (depth parts t)) parts))))
        end).
Proof.
  unfold list_, bind. rewrite get_direntries_lookup.
  destruct (resolve parts t); reflexivity.
Qed.

Lemma is_file_lookup (parts : list bytes) (t : direntries) :
  is_file parts t
  = (t, Return (match outcome_of (get_fileentry parts t) with
                | Return _ => true
                | Raise _ => false
                end)).
Proof.
  unfold is_file, try_except_IOError, bind.
  destruct parts as [|s parts]; [reflexivity|].
  rewrite get_fileentry_lookup by congruence. simpl.
  destruct (resolve _ t) as [n|]; [|reflexivity].
  destruct (OD.contains _ (subdirs n)); [reflexivity|].
  destruct (OD.get _ (files n)); reflexivity.
Qed.

(** ** Calls that only read *)

Lemma get_direntries_lookup_state (parts : list bytes) (t : direntries) :
  state_of (get_direntries parts false t) = t.
Proof. now rewrite get_direntries_lookup. Qed.

Lemma open_r_state (parts : list bytes) (t : direntries) :
  state_of (open_r parts t) = t.
Proof.
  unfold open_r, bind, lift. pose proof (get_fileentry_state parts t) as H.
  destruct (get_fileentry parts t) as [t' [e|x]]; simpl in *; subst;
    [|reflexivity].
  destruct (entry_open_r e); simpl; [|reflexivity].
  destruct (is_None a); reflexivity.
Qed.

Lemma open_w_state (parts : list bytes) (t : direntries) :
  state_of (open_w parts t) = t.
Proof.
  unfold open_w, bind, lift. pose proof (get_fileentry_state parts t) as H.
  destruct (get_fileentry parts t) as [t' [e|x]]; simpl in *; subst;
    [|reflexivity].
  destruct (entry_open_w e); simpl; [|reflexivity].
  destruct (is_None a); reflexivity.
Qed.

Lemma filesize_state (parts : list bytes) (t : direntries) :
  state_of (filesize parts t) = t.
Proof.
  unfold filesize, bind, lift. pose proof (get_fileentry_state parts t) as H.
  destruct (get_fileentry parts t) as [t' [e|x]]; simpl in *; subst; reflexivity.
Qed.

Lemma mtime_state (parts : list bytes) (t : direntries) :
  state_of (mtime parts t) = t.
Proof.
  unfold mtime, bind, lift. pose proof (get_fileentry_state parts t) as H.
  destruct (get_fileentry parts t) as [t' [e|x]]; simpl in *; subst; reflexivity.
Qed.

Lemma writable_state (parts : list bytes) (t : direntries) :
  state_of (writable parts t) = t.
Proof.
  unfold writable, try_except_IOError, bind, lift, ret.
  pose proof (get_fileentry_state parts t) as H.
  destruct (get_fileentry parts t) as [t' [e|x]]; simpl in *; subst.
  - destruct (unpack_open_w e) as [w|x]; simpl; [reflexivity|].
    destruct (is_IOError x); reflexivity.
  - destruct (is_IOError x); reflexivity.
Qed.

(** ** Invariants kept by every call *)

Lemma all_nodes_unfold P (f : OD.t fileentry) (d : OD.t direntries) :
  all_nodes P (Entries f d)
  = P f d && forallb (fun kv => all_nodes P (snd kv)) d.
Proof.
  simpl. f_equal. induction d as [|[k c] d IH]; simpl; [reflexivity|].
  now rewrite IH.
Qed.

Section Children.
Variable Q : direntries -> bool.

Lemma children_get k (d : OD.t direntries) c :
  forallb (fun kv => Q (snd kv)) d = true -> OD.get k d = Some c -> Q c = true.
Proof.
  induction d as [|[k' c'] d IH]; simpl; [discriminate|].
  intros H. apply andb_true_iff in H as [H1 H2].
  destruct (String.eqb k k'); [congruence | auto].
Qed.

Lemma children_set k c (d : OD.t direntries) :
  forallb (fun kv => Q (snd kv)) d = true -> Q c = true ->
  forallb (fun kv => Q (snd kv)) (OD.set k c d) = true.
Proof.
  intros H Hc. induction d as [|[k' c'] d IH]; simpl.
  - now rewrite Hc.
  - simpl in H. apply andb_true_iff in H as [H1 H2].
    destruct (String.eqb k k'); simpl.
    + now rewrite Hc, H2.
    + now rewrite H1, IH.
Qed.

Lemma children_remove k (d : OD.t direntries) :
  forallb (fun kv => Q (snd kv)) d = true ->
  forallb (fun kv => Q (snd kv)) (OD.remove k d) = true.
Proof.
  induction d as [|[k' c'] d IH]; simpl; [auto|].
  intros H. apply andb_true_iff in H as [H1 H2].
  destruct (String.eqb k k'); simpl; [assumption|].
  now rewrite H1, IH.
Qed.
End Children.

Section Preservation.
Variable P : OD.t fileentry -> OD.t direntries -> bool.
Hypothesis P_empty : P [] [] = true.
Hypothesis P_replace_dir : forall f d k c,
  P f d = true -> OD.get k d <> None -> P f (OD.set k c d) = true.
Hypothesis P_new_dir : forall f d k c,
  P f d = true -> OD.get k d = None -> OD.contains k f = false ->
  P f (OD.set k c d) = true.
Hypothesis P_set_file : forall f d k e,
  P f d = true -> OD.contains k d = false -> P (OD.set k e f) d = true.
Hypothesis P_remove_dir : forall f d k,
  P f d = true -> P f (OD.remove k d) = true.
Hypothesis P_remove_file : forall f d k,
  P f d = true -> P (OD.remove k f) d = true.

Lemma all_nodes_resolve (path : list bytes) (t n : direntries) :
  all_nodes P t = true -> resolve path t = Some n -> all_nodes P n = true.
Proof.
  revert t. induction path as [|s path IH]; intros [f d]; simpl resolve.
  - congruence.
  - rewrite all_nodes_unfold. intros H. apply andb_true_iff in H as [_ H].
    destruct (OD.get s d) as [c|] eqn:E; [|discriminate].
    apply IH. eapply children_get; eauto.
Qed.

Lemma all_nodes_store (path : list bytes) (node t : direntries) :
  all_nodes P t = true -> all_nodes P node = true ->
  all_nodes P (store path node t) = true.
Proof.
  revert t. induction path as [|s path IH]; intros [f d]; simpl store.
  - auto.
  - intros H Hn. destruct (OD.get s d) as [c|] eqn:E; [|assumption].
    rewrite all_nodes_unfold in *. apply andb_true_iff in H as [H1 H2].
    apply andb_true_iff. split.
    + apply P_replace_dir; congruence.
    + apply children_set; [assumption|].
      apply IH; [|assumption]. eapply children_get; eauto.
Qed.

Lemma all_nodes_loop (rest parts : list bytes) (create : bool) (idx : nat)
    (t : direntries) :
  all_nodes P t = true ->
  all_nodes P (state_of (get_direntries_loop parts create idx rest t)) = true.
Proof.
  destruct create; [|now rewrite loop_lookup].
  assert (Hempty : all_nodes P empty = true).
  { unfold empty. rewrite all_nodes_unfold. simpl. now rewrite P_empty. }
  revert idx t. induction rest as [|s rest IH]; intros idx [f d] H;
    cbn [get_direntries_loop subdirs files].
  - assumption.
  - pose proof H as H'. rewrite all_nodes_unfold in H'.
    apply andb_true_iff in H' as [H1 H2].
    destruct (OD.get s d) as [c|] eqn:E.
    + specialize (IH (S idx) c).
      destruct (get_direntries_loop parts true (S idx) rest c) as [c' r].
      unfold state_of in *. cbn [fst] in *. rewrite all_nodes_unfold.
      apply andb_true_iff. split.
      * apply P_replace_dir; congruence.
      * apply children_set; [assumption|]. apply IH.
        eapply children_get; eauto.
    + destruct (OD.contains s f) eqn:C; [assumption|].
      specialize (IH (S idx) empty Hempty).
      destruct (get_direntries_loop parts true (S idx) rest empty) as [c' r].
      unfold state_of in *. cbn [fst] in *. rewrite all_nodes_unfold.
      apply andb_true_iff. split.
      * apply P_replace_dir.
        -- apply P_new_dir; assumption.
        -- rewrite get_set_same. congruence.
      * apply children_set; [|assumption].
        apply children_set; assumption.
Qed.

Lemma all_nodes_add_fileentry parts entry t :
  all_nodes P t = true ->
  all_nodes P (state_of (add_fileentry parts entry t)) = true.
Proof.
  intros H. unfold add_fileentry. destruct parts as [|s parts]; [assumption|].
  unfold bind, get_direntries.
  pose proof (all_nodes_loop (parent_parts (s :: parts))
                (parent_parts (s :: parts)) true 0 t H) as H1.
  destruct (get_direntries_loop _ true 0 (parent_parts (s :: parts)) t)
    as [t1 [n|x]] eqn:L; unfold state_of in *; simpl in H1; [|assumption].
  destruct (OD.contains _ (subdirs n)) eqn:C; [assumption|].
  simpl. apply all_nodes_store; [assumption|].
  pose proof (all_nodes_resolve _ _ _ H1 (loop_create_resolve _ _ _ _ _ _ L)) as Hn.
  destruct n as [f d]. rewrite all_nodes_unfold in *.
  apply andb_true_iff in Hn as [Hn1 Hn2]. apply andb_true_iff. split; auto.
Qed.

Lemma all_nodes_rmdir parts t :
  all_nodes P t = true -> all_nodes P (state_of (rmdir parts t)) = true.
Proof.
  intros H. unfold rmdir. destruct parts as [|s parts]; [assumption|].
  unfold bind. rewrite get_direntries_lookup.
  destruct (resolve _ t) as [[pf pd]|] eqn:R; [|assumption]. simpl.
  destruct (OD.contains _ pf); [assumption|].
  destruct (OD.get _ pd) as [target|]; [|assumption].
  destruct (_ || _); [assumption|]. simpl.
  apply all_nodes_store; [assumption|].
  pose proof (all_nodes_resolve _ _ _ H R) as Hn. rewrite all_nodes_unfold in *.
  apply andb_true_iff in Hn as [Hn1 Hn2]. apply andb_true_iff.
  split; [auto | now apply children_remove].
Qed.

Lemma all_nodes_unlink parts t :
  all_nodes P t = true -> all_nodes P (state_of (unlink parts t)) = true.
Proof.
  intros H. unfold unlink. destruct parts as [|s parts]; [assumption|].
  unfold bind. rewrite get_direntries_lookup.
  destruct (resolve _ t) as [[pf pd]|] eqn:R; [|assumption]. simpl.
  destruct (OD.contains _ pd); [assumption|].
  unfold OD.del. destruct (OD.contains _ pf); [|assumption]. simpl.
  apply all_nodes_store; [assumption|].
  pose proof (all_nodes_resolve _ _ _ H R) as Hn. rewrite all_nodes_unfold in *.
  apply andb_true_iff in Hn as [Hn1 Hn2]. apply andb_true_iff.
  split; auto.
Qed.

Lemma all_nodes_after (c : fc_call) (t : direntries) :
  all_nodes P t = true -> all_nodes P (after c t) = true.
Proof.
  intros H. destruct c; simpl.
  - now apply all_nodes_add_fileentry.
  - now rewrite get_fileentry_state.
  - now apply all_nodes_loop.
  - now rewrite open_r_state.
  - now rewrite open_w_state.
  - now rewrite list_lookup.
  - now rewrite filesize_state.
  - now rewrite mtime_state.
  - unfold mkdirs, bind, get_direntries.
    pose proof (all_nodes_loop parts parts true 0 t H) as H1.
    destruct (get_direntries_loop parts true 0 parts t) as [t1 [n|x]];
      assumption.
  - now apply all_nodes_rmdir.
  - now apply all_nodes_unlink.
  - assumption.
  - assumption.
  - now rewrite is_file_lookup.
  - now rewrite is_dir_lookup.
  - now rewrite writable_state.
  - assumption.
  - assumption.
Qed.

Lemma all_nodes_reachable (t : direntries) :
  reachable t -> all_nodes P t = true.
Proof.
  induction 1 as [|c t _ IH].
  - simpl. now rewrite P_empty.
  - now apply all_nodes_after.
Qed.
End Preservation.

(** *** The two invariants *)

Lemma nodupb_spec (l : list bytes) : nodupb l = true <-> NoDup l.
Proof.
  induction l as [|k l IH]; simpl.
  - split; [constructor | reflexivity].
  - rewrite andb_true_iff, negb_true_iff, IH. split.
    + intros [H1 H2]. constructor; [|assumption].
      intros Hin. assert (existsb (String.eqb k) l = true); [|congruence].
      apply existsb_exists. exists k. split; [assumption | apply String.eqb_refl].
    + intros H. inversion H as [|? ? Hnot Hnd]; subst. split; [|assumption].
      destruct (existsb (String.eqb k) l) eqn:E; [|reflexivity].
      apply existsb_exists in E as (x & Hx & Heq).
      apply String.eqb_eq in Heq. subst. contradiction.
Qed.

Lemma no_shared_name_spec (f : OD.t fileentry) (d : OD.t direntries) :
  no_shared_name f d = true <->
  forall k, In k (OD.keys f) -> In k (OD.keys d) -> False.
Proof.
  unfold no_shared_name. rewrite forallb_forall. split.
  - intros H k Hf Hd. specialize (H k Hf). apply negb_true_iff in H.
    apply contains_In in Hd. congruence.
  - intros H k Hf. apply negb_true_iff.
    destruct (OD.contains k d) eqn:E; [|reflexivity].
    apply contains_In in E. exfalso. eauto.
Qed.

Lemma keys_once_spec (f : OD.t fileentry) (d : OD.t direntries) :
  keys_once f d = true <-> NoDup (OD.keys f) /\ NoDup (OD.keys d).
Proof.
  unfold keys_once. now rewrite andb_true_iff, !nodupb_spec.
Qed.

Lemma not_contains_not_In (V : Type) (k : bytes) (d : OD.t V) :
  OD.contains k d = false <-> ~ In k (OD.keys d).
Proof.
  rewrite <- contains_In. destruct (OD.contains k d); split; congruence.
Qed.

Lemma names_disjoint_reachable (t : direntries) :
  reachable t -> names_disjoint t = true.
Proof.
  apply all_nodes_reachable.
  - reflexivity.
  - intros f d k c H Hk. rewrite no_shared_name_spec in *.
    now rewrite keys_set_present.
  - intros f d k c H Hk Hf. rewrite no_shared_name_spec in *.
    intros x Hx Hd. apply In_keys_set in Hd as [->|Hd]; [|eauto].
    apply not_contains_not_In in Hf. contradiction.
  - intros f d k e H Hd. rewrite no_shared_name_spec in *.
    intros x Hx Hxd. apply In_keys_set in Hx as [->|Hx]; [|eauto].
    apply not_contains_not_In in Hd. contradiction.
  - intros f d k H. rewrite no_shared_name_spec in *.
    intros x Hx Hd. apply In_keys_remove in Hd. eauto.
  - intros f d k H. rewrite no_shared_name_spec in *.
    intros x Hx Hd. apply In_keys_remove in Hx. eauto.
Qed.

Lemma unique_keys_reachable (t : direntries) :
  reachable t -> unique_keys t = true.
Proof.
  apply all_nodes_reachable.
  - reflexivity.
  - intros f d k c H Hk. rewrite keys_once_spec in *.
    now rewrite keys_set_present.
  - intros f d k c H Hk Hf. rewrite keys_once_spec in *.
    split; [tauto | apply NoDup_keys_set; tauto].
  - intros f d k e H Hd. rewrite keys_once_spec in *.
    split; [apply NoDup_keys_set; tauto | tauto].
  - intros f d k H. rewrite keys_once_spec in *.
    split; [tauto | apply NoDup_keys_remove; tauto].
  - intros f d k H. rewrite keys_once_spec in *.
    split; [apply NoDup_keys_remove; tauto | tauto].
Qed.

(** What an invariant of all nodes says of the node a path leads to. *)
Lemma all_nodes_at P (path : list bytes) (t : direntries)
    (f : OD.t fileentry) (d : OD.t direntries) :
  all_nodes P t = true -> resolve path t = Some (Entries f d) -> P f d = true.
Proof.
  revert t. induction path as [|s path IH]; intros [F D]; simpl resolve.
  - intros H E. injection E as -> ->. rewrite all_nodes_unfold in H.
    now apply andb_true_iff in H.
  - rewrite all_nodes_unfold. intros H. apply andb_true_iff in H as [_ H].
    destruct (OD.get s D) as [c|] eqn:E; [|discriminate].
    apply IH. eapply children_get; eauto.
Qed.

(** C9: in every tree reachable from the new, empty collection by any
    sequence of calls (returning or raising), no directory node has a name
    that is a key of both its file dictionary and its sub-directory
    dictionary; in particular this holds of the node any path leads to. *)
Theorem reachable_no_name_in_both_mappings (t : direntries) :
  reachable t ->
  names_disjoint t = true /\
  forall (q : list bytes) (f : OD.t fileentry) (d : OD.t direntries)
         (name : bytes),
    get_direntries q false t = (t, Return (Entries f d)) ->
    ~ (OD.contains name f = true /\ OD.contains name d = true).
Proof.
  intros Hr. pose proof (names_disjoint_reachable t Hr) as Hd.
  split; [assumption|].
  intros q f d name Hq [Hf Hdd].
  rewrite get_direntries_lookup in Hq.
  destruct (resolve q t) as [n|] eqn:R; [|discriminate].
  injection Hq as ->.
  pose proof (all_nodes_at _ _ _ _ _ Hd R) as Hn.
  rewrite no_shared_name_spec in Hn.
  apply contains_In in Hf, Hdd. eauto.
Qed.

Lemma reachable_no_name_in_both_mappings_witness :
  reachable sample /\
  names_disjoint sample = true /\
  forall (q : list bytes) (f : OD.t fileentry) (d : OD.t direntries)
         (name : bytes),
    get_direntries q false sample = (sample, Return (Entries f d)) ->
    ~ (OD.contains name f = true /\ OD.contains name d = true).
Proof.
  assert (H : reachable sample).
  { exact (reachable_call (CallMkdirs ["a"; "d"]) _
             (reachable_call (CallAddFileentry ["a"; "b.txt"] read_only_entry) _
                reachable_new)). }
  split; [exact H | exact (reachable_no_name_in_both_mappings sample H)].
Defined.

(** ** Resolution through a name that is a file *)

Lemma resolve_blocked (pre post : list bytes) (seg : bytes) (t n : direntries) :
  resolve pre t = Some n -> OD.get seg (subdirs n) = None ->
  resolve (pre ++ seg :: post) t = None
  /\ depth (pre ++ seg :: post) t = List.length pre.
Proof.
  revert t. induction pre as [|s pre IH]; intros t; simpl.
  - intros H Hs. injection H as ->. now rewrite Hs.
  - destruct (OD.get s (subdirs t)) as [c|]; [|discriminate].
    intros H Hs. destruct (IH _ H Hs) as [-> ->]. auto.
Qed.

Lemma firstn_through (pre post : list bytes) (seg : bytes) :
  firstn (S (List.length pre)) (pre ++ seg :: post) = pre ++ [seg].
Proof.
  induction pre as [|s pre IH]; simpl; [reflexivity|].
  f_equal. exact IH.
Qed.

Lemma parent_parts_snoc (l : list bytes) (name : bytes) :
  parent_parts (l ++ [name]) = l.
Proof. apply removelast_last. Qed.

Lemma last_part_snoc (l : list bytes) (name : bytes) :
  last_part (l ++ [name]) = name.
Proof. apply last_last. Qed.

(** C10: when a prefix [pre] of a path resolves to a node in which the
    next segment [seg] is a file and not a directory, resolution without
    [create] raises [FileNotFoundError] naming [pre/seg] (so neither
    [NotADirectoryError] nor [FileExistsError]) and leaves the tree alone;
    [list], and [get_fileentry], [filesize] and [mtime] of anything below
    that path, raise that same error. *)
Theorem file_shadowed_prefix_is_NotFound
    (pre post : list bytes) (seg : bytes) (t : direntries)
    (f : OD.t fileentry) (d : OD.t direntries) :
  get_direntries pre false t = (t, Return (Entries f d)) ->
  OD.contains seg f = true ->
  OD.contains seg d = false ->
  let x := FileNotFoundError
             (ArgDecoded "No such directory: " (join (pre ++ [seg]))) in
  get_direntries (pre ++ seg :: post) false t = (t, Raise x)
  /\ list_ (pre ++ seg :: post) t = (t, Raise x)
  /\ forall name : bytes,
       get_fileentry ((pre ++ seg :: post) ++ [name]) t = (t, Raise x)
       /\ filesize ((pre ++ seg :: post) ++ [name]) t = (t, Raise x)
       /\ mtime ((pre ++ seg :: post) ++ [name]) t = (t, Raise x).
Proof.
  intros Hpre _ Hd x.
  rewrite get_direntries_lookup in Hpre.
  destruct (resolve pre t) as [n|] eqn:R; [|discriminate].
  injection Hpre as ->.
  apply contains_false in Hd.
  destruct (resolve_blocked pre post seg t _ R Hd) as [Hres Hdepth].
  assert (Hdir : get_direntries (pre ++ seg :: post) false t = (t, Raise x)).
  { rewrite get_direntries_lookup, Hres, Hdepth, firstn_through. reflexivity. }
  split; [exact Hdir|]. split.
  - unfold list_, bind. now rewrite Hdir.
  - intros name.
    assert (Hfile : get_fileentry ((pre ++ seg :: post) ++ [name]) t
                    = (t, Raise x)).
    { rewrite get_fileentry_lookup by (intros H; apply app_eq_nil in H as [_ H];
                                       discriminate).
      rewrite parent_parts_snoc, Hres, Hdepth, firstn_through. reflexivity. }
    split; [exact Hfile|].
    unfold filesize, mtime, bind. now rewrite Hfile.
Qed.

Lemma file_shadowed_prefix_is_NotFound_witness :
  let x := FileNotFoundError (ArgDecoded "No such directory: " "a/b.txt") in
  get_direntries ["a"; "b.txt"; "c"] false sample = (sample, Raise x)
  /\ list_ ["a"; "b.txt"; "c"] sample = (sample, Raise x)
  /\ forall name : bytes,
       get_fileentry (["a"; "b.txt"; "c"] ++ [name]) sample = (sample, Raise x)
       /\ filesize (["a"; "b.txt"; "c"] ++ [name]) sample = (sample, Raise x)
       /\ mtime (["a"; "b.txt"; "c"] ++ [name]) sample = (sample, Raise x).
Proof.
  apply (file_shadowed_prefix_is_NotFound ["a"] ["c"] "b.txt" sample
           [("b.txt", read_only_entry)] [("d", empty)]);
    reflexivity.
Defined.

(** ** Registration *)

Lemma add_fileentry_unfold (p : list bytes) (e : fileentry) (t : direntries) :
  p <> [] ->
  add_fileentry p e t
  = match get_direntries (parent_parts p) true t with
    | (t1, Raise x) => (t1, Raise x)
    | (t1, Return n) =>
        if OD.contains (last_part p) (subdirs n) then
          (t1, Raise (IsADirectoryError (ArgBytes (join p))))
        else
          (store (parent_parts p)
                 (Entries (OD.set (last_part p) e (files n)) (subdirs n)) t1,
           Return tt)
    end.
Proof.
  intros Hne. destruct p as [|s p]; [congruence|].
  unfold add_fileentry, bind.
  destruct (get_direntries (parent_parts (s :: p)) true t) as [t1 [n|x]];
    [|reflexivity].
  destruct (OD.contains _ (subdirs n)); reflexivity.
Qed.

(** C5, as the code has it: whenever [add_fileentry p e] returns,
    [get_fileentry p] on the resulting collection returns [e], the very
    entry handed in, and changes nothing. *)
Theorem register_then_lookup (p : list bytes) (e : fileentry)
    (t t' : direntries) :
  p <> [] ->
  add_fileentry p e t = (t', Return tt) ->
  get_fileentry p t' = (t', Return e).
Proof.
  intros Hne H. rewrite add_fileentry_unfold in H by assumption.
  destruct (get_direntries (parent_parts p) true t) as [t1 [n|x]] eqn:L;
    [|discriminate].
  destruct (OD.contains (last_part p) (subdirs n)) eqn:C; [discriminate|].
  injection H as <-.
  apply loop_create_resolve in L.
  rewrite get_fileentry_lookup by assumption.
  rewrite resolve_store_same by congruence. simpl.
  now rewrite C, get_set_same.
Qed.

Lemma register_then_lookup_witness :
  let t' := state_of (add_fileentry ["a"; "c.txt"] tuple_entry sample) in
  get_fileentry ["a"; "c.txt"] t' = (t', Return tuple_entry).
Proof.
  apply (register_then_lookup ["a"; "c.txt"] tuple_entry sample);
    [discriminate | reflexivity].
Defined.

(** C5 as claimed fails: on a reachable collection in which [a] is a
    directory, [add_fileentry] at the non-empty path [a] raises
    [IsADirectoryError], stores nothing, and [get_fileentry] there raises
    too instead of returning the entry. *)
Lemma register_raises_then_no_entry :
  let t := state_of (mkdirs ["a"] empty) in
  let r := add_fileentry ["a"] bare_entry t in
  reachable t
  /\ ["a"] <> []
  /\ r = (t, Raise (IsADirectoryError (ArgBytes "a")))
  /\ get_fileentry ["a"] (state_of r)
     = (state_of r, Raise (IsADirectoryError (ArgBytes "a")))
  /\ get_fileentry ["a"] (state_of r) <> (state_of r, Return bare_entry).
Proof.
  split; [exact (reachable_call (CallMkdirs ["a"]) _ reachable_new)|].
  split; [discriminate|]. split; [reflexivity|]. split; [reflexivity|].
  vm_compute. discriminate.
Qed.

Lemma is_dir_true (q : list bytes) (t : direntries) :
  is_dir q t = (t, Return true) <-> resolve q t <> None.
Proof.
  rewrite is_dir_lookup. destruct (resolve q t); split; congruence.
Qed.

Lemma store_files_is_dir (path : list bytes) (f f' : OD.t fileentry)
    (d : OD.t direntries) (t : direntries) :
  resolve path t = Some (Entries f d) ->
  forall q, resolve q (store path (Entries f' d) t) <> None
            <-> resolve q t <> None.
Proof.
  intros H q. pose proof (store_files_resolve path f f' d t H q) as Hq.
  destruct (resolve q t) as [n|].
  - destruct Hq as (n' & -> & _). split; congruence.
  - rewrite Hq. reflexivity.
Qed.

Lemma store_files_file_at_other (path : list bytes) (f f' : OD.t fileentry)
    (d : OD.t direntries) (t : direntries) (q : list bytes) :
  resolve path t = Some (Entries f d) ->
  parent_parts q <> path ->
  file_at q (store path (Entries f' d) t) = file_at q t.
Proof.
  intros H Hq. unfold file_at. destruct q as [|s q]; [reflexivity|].
  pose proof (store_files_resolve path f f' d t H (parent_parts (s :: q))) as Hr.
  destruct (resolve (parent_parts (s :: q)) t) as [n|].
  - destruct Hr as (n' & -> & _ & Hf). now rewrite Hf.
  - now rewrite Hr.
Qed.

Lemma store_files_file_at_here (path : list bytes) (f' : OD.t fileentry)
    (d : OD.t direntries) (t : direntries) (q : list bytes) :
  resolve path t <> None -> q <> [] ->
  parent_parts q = path ->
  file_at q (store path (Entries f' d) t) = OD.get (last_part q) f'.
Proof.
  intros H Hq Hp. unfold file_at. destruct q as [|s q]; [congruence|].
  rewrite Hp, resolve_store_same by assumption. reflexivity.
Qed.

Lemma same_parent_other_name (p q : list bytes) :
  p <> [] -> q <> [] -> q <> p -> parent_parts q = parent_parts p ->
  last_part p <> last_part q.
Proof.
  intros Hp Hq Hne Hpar Hlast. apply Hne.
  rewrite (parts_split q Hq), (parts_split p Hp). congruence.
Qed.

Lemma strict_prefix_parent (q p : list bytes) :
  p <> [] -> ((exists r, parent_parts p = q ++ r) <-> strict_prefix q p).
Proof.
  intros Hp. unfold strict_prefix. split.
  - intros [r Hr]. exists (r ++ [last_part p]). split.
    + intros H. apply app_eq_nil in H as [_ H]. discriminate.
    + rewrite app_assoc, <- Hr. now apply parts_split.
  - intros (r & Hr & Heq).
    destruct (exists_last Hr) as (r' & x & ->).
    exists r'. rewrite Heq, app_assoc. apply parent_parts_snoc.
Qed.

Lemma mkdirs_state (q : list bytes) (t : direntries) :
  state_of (mkdirs q t) = state_of (get_direntries q true t).
Proof.
  unfold mkdirs, bind. destruct (get_direntries q true t) as [t1 [n|x]];
    reflexivity.
Qed.

(** A creating walk leaves every registered file where it was. *)
Lemma loop_create_file_at (rest parts : list bytes) (idx : nat)
    (t t1 : direntries) (r : outcome direntries) (q : list bytes) :
  get_direntries_loop parts true idx rest t = (t1, r) ->
  file_at q t1 = file_at q t.
Proof.
  intros L. unfold file_at. destruct q as [|s q]; [reflexivity|].
  pose proof (loop_create_files rest parts idx t t1 r L
                (parent_parts (s :: q))) as H.
  destruct (resolve (parent_parts (s :: q)) t) as [n|].
  - destruct (resolve (parent_parts (s :: q)) t1) as [n1|]; simpl in H;
      [|discriminate].
    injection H as ->. reflexivity.
  - destruct (resolve (parent_parts (s :: q)) t1) as [n1|]; [|reflexivity].
    rewrite (H n1 eq_refl). reflexivity.
Qed.

(** C1, as the code has it: [add_fileentry] raises [IsADirectoryError]
    both for the empty path and for a path whose final segment is a
    sub-directory of its parent, with the full path as argument in the
    second case; the tree is left exactly as it was, so no file entry is
    stored. *)
Theorem register_onto_directory (p : list bytes) (e : fileentry)
    (t : direntries) :
  (p = [] \/
   exists t1 parent,
     get_direntries (parent_parts p) true t = (t1, Return parent)
     /\ OD.contains (last_part p) (subdirs parent) = true) ->
  add_fileentry p e t
  = (t, Raise (IsADirectoryError
                 match p with
                 | [] => ArgStr "FileCollection.root is a directory"
                 | _ => ArgBytes (join p)
                 end)).
Proof.
  intros [->|(t1 & parent & L & C)]; [reflexivity|].
  destruct p as [|s p].
  - simpl in L. injection L as <- <-. unfold add_fileentry, raise. reflexivity.
  - rewrite add_fileentry_unfold by discriminate. rewrite L, C.
    destruct (loop_create_fresh _ _ _ _ _ _ L) as [[_ ->]|[_ ->]].
    + reflexivity.
    + discriminate.
Qed.

Lemma register_onto_directory_witness :
  add_fileentry ["a"; "d"] tuple_entry sample
  = (sample, Raise (IsADirectoryError (ArgBytes "a/d"))).
Proof.
  apply (register_onto_directory ["a"; "d"] tuple_entry sample).
  right. exists sample, (Entries [("b.txt", read_only_entry)] [("d", empty)]).
  split; reflexivity.
Defined.

(** C1 as claimed fails: registering onto an existing directory does not
    raise [FileExistsError]. *)
Lemma existing_directory_register_not_Exists :
  let t := state_of (mkdirs ["a"] empty) in
  get_direntries (parent_parts ["a"]) true t = (t, Return t)
  /\ OD.contains (last_part ["a"]) (subdirs t) = true
  /\ ~ exists a, outcome_of (add_fileentry ["a"] bare_entry t)
                 = Raise (FileExistsError a).
Proof.
  split; [reflexivity|]. split; [reflexivity|].
  intros [a H]. vm_compute in H. discriminate.
Qed.

(** C2, as the code has it: creating the parent directories of [p] with
    [mkdirs] first makes no difference to [add_fileentry p e], neither to
    the tree it leaves nor to its outcome; and when [add_fileentry p e]
    returns, the directories of the tree are those it had before together
    with the strict prefixes of [p], the entry is stored at [p], and every
    other path holds the file entry it held before. *)
Theorem mkdirs_parent_then_register (p : list bytes) (e : fileentry)
    (t : direntries) :
  p <> [] ->
  add_fileentry p e (state_of (mkdirs (parent_parts p) t)) = add_fileentry p e t
  /\ forall t', add_fileentry p e t = (t', Return tt) ->
       (forall q, is_dir q t' = (t', Return true)
                  <-> (is_dir q t = (t, Return true) \/ strict_prefix q p))
       /\ file_at p t' = Some e
       /\ (forall q, q <> p -> file_at q t' = file_at q t).
Proof.
  intros Hp. split.
  - rewrite mkdirs_state, !add_fileentry_unfold by assumption.
    unfold get_direntries.
    destruct (get_direntries_loop (parent_parts p) true 0 (parent_parts p) t)
      as [t1 r] eqn:L.
    unfold state_of. simpl. now rewrite (loop_create_again _ _ _ _ _ _ L).
  - intros t' H. rewrite add_fileentry_unfold in H by assumption.
    destruct (get_direntries (parent_parts p) true t) as [t1 [[f d]|x]] eqn:L;
      [|discriminate].
    simpl in H. destruct (OD.contains (last_part p) d) eqn:C; [discriminate|].
    injection H as <-.
    pose proof (loop_create_resolve _ _ _ _ _ _ L) as R.
    split; [|split].
    + intros q. rewrite !is_dir_true, (store_files_is_dir _ _ _ _ _ R).
      rewrite (loop_create_dirs _ _ _ _ _ _ L).
      now rewrite strict_prefix_parent.
    + rewrite store_files_file_at_here by congruence. apply get_set_same.
    + intros q Hq. destruct q as [|s q]; [reflexivity|].
      destruct (list_eq_dec String.string_dec
                  (parent_parts (s :: q)) (parent_parts p)) as [Heq|Hne].
      * rewrite store_files_file_at_here by congruence.
        rewrite get_set_other
          by (apply same_parent_other_name; congruence).
        rewrite <- (loop_create_file_at _ _ _ _ _ _ (s :: q) L).
        unfold file_at. rewrite Heq, R. reflexivity.
      * rewrite (store_files_file_at_other _ _ _ _ _ _ R Hne).
        apply (loop_create_file_at _ _ _ _ _ _ _ L).
Qed.

Lemma mkdirs_parent_then_register_witness :
  add_fileentry ["x"; "y"; "f"] tuple_entry
                (state_of (mkdirs (parent_parts ["x"; "y"; "f"]) sample))
  = add_fileentry ["x"; "y"; "f"] tuple_entry sample
  /\ forall t', add_fileentry ["x"; "y"; "f"] tuple_entry sample
                = (t', Return tt) ->
       (forall q, is_dir q t' = (t', Return true)
                  <-> (is_dir q sample = (sample, Return true)
                       \/ strict_prefix q ["x"; "y"; "f"]))
       /\ file_at ["x"; "y"; "f"] t' = Some tuple_entry
       /\ (forall q, q <> ["x"; "y"; "f"] -> file_at q t' = file_at q sample).
Proof.
  apply (mkdirs_parent_then_register ["x"; "y"; "f"] tuple_entry sample).
  discriminate.
Defined.

(** C2 as claimed fails: after [mkdirs p] the path [p] is a directory, so
    [add_fileentry p e] raises and stores nothing, whereas alone it
    stores the entry. *)
Lemma mkdirs_path_then_register_differs :
  state_of (add_fileentry ["a"] bare_entry (state_of (mkdirs ["a"] empty)))
  <> state_of (add_fileentry ["a"] bare_entry empty).
Proof. vm_compute. discriminate. Qed.

(** ** Lookup where no file is stored *)

Lemma resolve_parts (p : list bytes) (t : direntries) :
  p <> [] ->
  resolve p t
  = match resolve (parent_parts p) t with
    | Some n => OD.get (last_part p) (subdirs n)
    | None => None
    end.
Proof.
  intros Hp.
  transitivity (resolve (parent_parts p ++ [last_part p]) t).
  - f_equal. now apply parts_split.
  - rewrite resolve_app. destruct (resolve (parent_parts p) t) as [n|];
      [|reflexivity].
    simpl. destruct (OD.get (last_part p) (subdirs n)); reflexivity.
Qed.

(** C6, as the code has it: at a path where no file entry is stored,
    [get_fileentry], [open_r] and [open_w] all raise the same exception
    and leave the tree alone; it is [IsADirectoryError] when the path is
    the root or names a directory and [FileNotFoundError] otherwise. *)
Theorem lookup_where_no_file (p : list bytes) (t : direntries) :
  file_at p t = None ->
  exists x,
    get_fileentry p t = (t, Raise x)
    /\ open_r p t = (t, Raise x)
    /\ open_w p t = (t, Raise x)
    /\ ((is_dir p t = (t, Return true) /\ exists a, x = IsADirectoryError a)
        \/ (is_dir p t = (t, Return false)
            /\ exists a, x = FileNotFoundError a)).
Proof.
  intros Hfile.
  assert (Hx : exists x,
    get_fileentry p t = (t, Raise x)
    /\ ((is_dir p t = (t, Return true) /\ exists a, x = IsADirectoryError a)
        \/ (is_dir p t = (t, Return false)
            /\ exists a, x = FileNotFoundError a))).
  { destruct p as [|s p].
    - eexists. split; [reflexivity|]. left. split; [reflexivity | eauto].
    - assert (Hp : s :: p <> []) by discriminate.
      rewrite get_fileentry_lookup, is_dir_lookup, (resolve_parts _ t Hp)
        by assumption.
      unfold file_at in Hfile.
      destruct (resolve (parent_parts (s :: p)) t) as [n|].
      + unfold OD.contains.
        destruct (OD.get (last_part (s :: p)) (subdirs n)).
        * eexists. split; [reflexivity|]. left. eauto.
        * rewrite Hfile. eexists. split; [reflexivity|]. right. eauto.
      + eexists. split; [reflexivity|]. right. eauto. }
  destruct Hx as (x & Hget & Hkind). exists x.
  split; [exact Hget|]. split; [|split; [|exact Hkind]].
  - unfold open_r, bind. now rewrite Hget.
  - unfold open_w, bind. now rewrite Hget.
Qed.

Lemma lookup_where_no_file_witness :
  exists x,
    get_fileentry ["a"; "c.txt"] sample = (sample, Raise x)
    /\ open_r ["a"; "c.txt"] sample = (sample, Raise x)
    /\ open_w ["a"; "c.txt"] sample = (sample, Raise x)
    /\ ((is_dir ["a"; "c.txt"] sample = (sample, Return true)
         /\ exists a, x = IsADirectoryError a)
        \/ (is_dir ["a"; "c.txt"] sample = (sample, Return false)
            /\ exists a, x = FileNotFoundError a)).
Proof.
  apply (lookup_where_no_file ["a"; "c.txt"] sample). reflexivity.
Defined.

(** C6 as claimed fails: no file entry is stored at the root or at a
    directory, yet [get_fileentry] there raises [IsADirectoryError], not
    [FileNotFoundError]. *)
Lemma lookup_of_directory_is_not_NotFound :
  let t := state_of (mkdirs ["a"] empty) in
  file_at ["a"] t = None
  /\ file_at [] t = None
  /\ get_fileentry ["a"] t = (t, Raise (IsADirectoryError (ArgBytes "a")))
  /\ (~ exists a, outcome_of (get_fileentry ["a"] t)
                  = Raise (FileNotFoundError a))
  /\ (~ exists a, outcome_of (get_fileentry [] t)
                  = Raise (FileNotFoundError a)).
Proof.
  repeat split; try reflexivity; intros [a H]; vm_compute in H; discriminate.
Qed.

(** ** Removing a directory *)

Lemma rmdir_unfold (p : list bytes) (t : direntries) :
  p <> [] ->
  rmdir p t
  = match resolve (parent_parts p) t with
    | None =>
        (t, Raise (FileNotFoundError
                     (ArgDecoded "No such directory: "
                        (join (firstn (S (depth (parent_parts p) t))
                                      (parent_parts p))))))
    | Some parent =>
        if OD.contains (last_part p) (files parent) then
          (t, Raise (NotADirectoryError (ArgBytes (join p))))
        else
          match OD.get (last_part p) (subdirs parent) with
          | None => (t, Raise (FileNotFoundError (ArgBytes (join p))))
          | Some target =>
              if OD.truthy (files target) || OD.truthy (subdirs target) then
                (t, Raise (IOError (ArgDecoded "Directory not empty: " (join p))))
              else
                (store (parent_parts p)
                       (Entries (files parent)
                                (OD.remove (last_part p) (subdirs parent))) t,
                 Return tt)
          end
    end.
Proof.
  intros Hp. destruct p as [|s p]; [congruence|].
  unfold rmdir, bind. rewrite get_direntries_lookup.
  destruct (resolve (parent_parts (s :: p)) t) as [parent|]; [|reflexivity].
  destruct (OD.contains _ (files parent)); [reflexivity|].
  destruct (OD.get _ (subdirs parent)) as [target|]; [|reflexivity].
  destruct (_ || _); reflexivity.
Qed.

Lemma truthy_empty (target : direntries) :
  OD.truthy (files target) || OD.truthy (subdirs target) = false
  <-> target = empty.
Proof.
  destruct target as [[|? ?] [|? ?]]; simpl; split; intros H;
    try reflexivity; try discriminate.
Qed.

(** Taking an empty directory [name] out of the node at [path]: the paths
    that still lead to a directory led to one before, with the same
    files; those that no longer do pass through [name]. *)
Lemma store_remove_dir (path : list bytes) (name : bytes)
    (pf : OD.t fileentry) (pd : OD.t direntries) (t : direntries) :
  resolve path t = Some (Entries pf pd) ->
  NoDup (OD.keys pd) ->
  forall q,
    match resolve q (store path (Entries pf (OD.remove name pd)) t) with
    | Some n' => exists n, resolve q t = Some n /\ files n = files n'
    | None => resolve q t = None \/ exists r, q = path ++ name :: r
    end.
Proof.
  intros H Hnd. revert t H.
  induction path as [|s path IH]; intros [F D]; simpl.
  - intros H. injection H as -> ->. intros [|k q]; simpl.
    + eexists; split; reflexivity.
    + destruct (String.eqb_spec k name) as [->|Hk].
      * rewrite get_remove_same by assumption. right. eauto.
      * rewrite get_remove_other by congruence.
        destruct (OD.get k pd) as [c|]; [|auto].
        destruct (resolve q c) as [n|]; [eauto | auto].
  - destruct (OD.get s D) as [child|] eqn:E; [|discriminate].
    intros H [|k q]; simpl.
    + eexists; split; reflexivity.
    + destruct (String.eqb_spec k s) as [->|Hk].
      * rewrite get_set_same, E. specialize (IH _ H q).
        destruct (resolve q (store path _ child)) as [n'|]; [assumption|].
        destruct IH as [IH|[r ->]]; [auto | right; eauto].
      * rewrite get_set_other by congruence.
        destruct (OD.get k D) as [c|]; [|auto].
        destruct (resolve q c) as [n|]; [eauto | auto].
Qed.

Lemma rmdir_failure_keeps_tree (p : list bytes) (t t' : direntries) (x : exn) :
  rmdir p t = (t', Raise x) -> t' = t.
Proof.
  destruct p as [|s p].
  - unfold rmdir, raise. congruence.
  - rewrite rmdir_unfold by discriminate.
    destruct (resolve _ t) as [parent|]; [|congruence].
    destruct (OD.contains _ (files parent)); [congruence|].
    destruct (OD.get _ (subdirs parent)) as [target|]; [|congruence].
    destruct (_ || _); congruence.
Qed.

Lemma not_file_when_directory (path : list bytes) (name : bytes)
    (t parent target : direntries) :
  names_disjoint t = true ->
  resolve path t = Some parent ->
  OD.get name (subdirs parent) = Some target ->
  OD.contains name (files parent) = false.
Proof.
  intros Hdis R G. destruct parent as [pf pd]. simpl in *.
  pose proof (all_nodes_at _ _ _ _ _ Hdis R) as Hn.
  rewrite no_shared_name_spec in Hn.
  apply not_contains_not_In. intros Hin. apply (Hn name Hin).
  apply get_In. congruence.
Qed.

Lemma rmdir_success_iff (p : list bytes) (t : direntries) :
  names_disjoint t = true ->
  ((exists t', rmdir p t = (t', Return tt))
   <-> (p <> [] /\ get_direntries p false t = (t, Return empty))).
Proof.
  intros Hdis. destruct p as [|s p].
  - split; [intros [t' H]; discriminate | intros [H _]; congruence].
  - assert (Hp : s :: p <> []) by discriminate.
    rewrite rmdir_unfold, get_direntries_lookup, (resolve_parts _ t Hp)
      by assumption.
    destruct (resolve (parent_parts (s :: p)) t) as [parent|] eqn:R.
    + destruct (OD.get (last_part (s :: p)) (subdirs parent)) as [target|] eqn:G.
      * rewrite (not_file_when_directory _ _ _ _ _ Hdis R G).
        destruct (OD.truthy (files target) || OD.truthy (subdirs target)) eqn:T.
        -- split; [intros [t' H]; discriminate|].
           intros [_ H]. injection H as ->. discriminate.
        -- apply truthy_empty in T. subst target.
           split; [auto | eauto].
      * destruct (OD.contains _ (files parent));
          (split; [intros [t' H]; discriminate | intros [_ H]; discriminate]).
    + split; [intros [t' H]; discriminate | intros [_ H]; discriminate].
Qed.

Lemma rmdir_success_effect (p : list bytes) (t t' : direntries) :
  unique_keys t = true ->
  rmdir p t = (t', Return tt) ->
  is_dir p t' = (t', Return false)
  /\ (forall q, ~ extends q p ->
                (is_dir q t' = (t', Return true)
                 <-> is_dir q t = (t, Return true)))
  /\ (forall q, file_at q t' = file_at q t).
Proof.
  intros Huniq H. destruct p as [|s p]; [discriminate|].
  assert (Hp : s :: p <> []) by discriminate.
  rewrite rmdir_unfold in H by assumption.
  destruct (resolve (parent_parts (s :: p)) t) as [[pf pd]|] eqn:R;
    [|discriminate].
  simpl in H. destruct (OD.contains _ pf); [discriminate|].
  destruct (OD.get (last_part (s :: p)) pd) as [target|] eqn:G; [|discriminate].
  destruct (OD.truthy (files target) || OD.truthy (subdirs target)) eqn:T;
    [discriminate|].
  apply truthy_empty in T. subst target. injection H as <-.
  assert (Hnd : NoDup (OD.keys pd)).
  { pose proof (all_nodes_at _ _ _ _ _ Huniq R) as Hn.
    apply keys_once_spec in Hn. tauto. }
  pose proof (store_remove_dir _ (last_part (s :: p)) _ _ _ R Hnd) as Hframe.
  split; [|split].
  - rewrite is_dir_lookup, (resolve_parts _ _ Hp).
    rewrite resolve_store_same by congruence. simpl.
    now rewrite get_remove_same.
  - intros q Hq. rewrite !is_dir_true. specialize (Hframe q).
    destruct (resolve q (store _ _ t)) as [n'|].
    + destruct Hframe as (n & -> & _). split; congruence.
    + destruct Hframe as [->|[r ->]]; [reflexivity|].
      exfalso. apply Hq. exists r.
      transitivity ((parent_parts (s :: p) ++ [last_part (s :: p)]) ++ r).
      * now rewrite <- app_assoc.
      * f_equal. symmetry. now apply parts_split.
  - intros [|k q]; [reflexivity|]. unfold file_at.
    specialize (Hframe (parent_parts (k :: q))).
    destruct (resolve (parent_parts (k :: q)) (store _ _ t)) as [n'|].
    + destruct Hframe as (n & -> & ->). reflexivity.
    + destruct Hframe as [->|[r ->]]; [reflexivity|].
      rewrite resolve_app, R. simpl. rewrite G.
      destruct r; reflexivity.
Qed.

Lemma rmdir_failures (p : list bytes) (t parent : direntries) :
  names_disjoint t = true ->
  p <> [] ->
  get_direntries (parent_parts p) false t = (t, Return parent) ->
  (OD.contains (last_part p) (files parent) = true ->
   rmdir p t = (t, Raise (NotADirectoryError (ArgBytes (join p)))))
  /\ (OD.contains (last_part p) (files parent) = false ->
      OD.contains (last_part p) (subdirs parent) = false ->
      rmdir p t = (t, Raise (FileNotFoundError (ArgBytes (join p)))))
  /\ (forall target,
        OD.get (last_part p) (subdirs parent) = Some target ->
        target <> empty ->
        rmdir p t
        = (t, Raise (IOError (ArgDecoded "Directory not empty: " (join p))))).
Proof.
  intros Hdis Hp Hparent. rewrite get_direntries_lookup in Hparent.
  destruct (resolve (parent_parts p) t) as [n|] eqn:R; [|discriminate].
  injection Hparent as ->. rewrite rmdir_unfold, R by assumption.
  split; [|split].
  - intros ->. reflexivity.
  - intros -> C. apply contains_false in C. now rewrite C.
  - intros target G Hne.
    rewrite (not_file_when_directory _ _ _ _ _ Hdis R G), G.
    destruct (OD.truthy (files target) || OD.truthy (subdirs target)) eqn:T;
      [reflexivity|].
    apply truthy_empty in T. contradiction.
Qed.

(** C7: in a tree with the invariants of a collection, [rmdir p] returns
    exactly when [p] is non-empty and names an existing empty directory,
    and then that directory is gone while every other directory and every
    file entry stays; otherwise it raises and leaves the tree unchanged:
    [UnsupportedOperation] for the root, [NotADirectoryError] when the
    final name is a file of the parent, [FileNotFoundError] when it is in
    neither dictionary of the parent, and [IOError] ("Directory not
    empty") when the directory named has a file or a sub-directory. *)
Theorem rmdir_contract (p : list bytes) (t : direntries) :
  names_disjoint t = true ->
  unique_keys t = true ->
  ((exists t', rmdir p t = (t', Return tt))
   <-> (p <> [] /\ get_direntries p false t = (t, Return empty)))
  /\ (forall t', rmdir p t = (t', Return tt) ->
        is_dir p t' = (t', Return false)
        /\ (forall q, ~ extends q p ->
                      (is_dir q t' = (t', Return true)
                       <-> is_dir q t = (t, Return true)))
        /\ (forall q, file_at q t' = file_at q t))
  /\ (p = [] ->
      rmdir p t
      = (t, Raise (UnsupportedOperation
                     (ArgStr "can't rmdir FileCollection.root"))))
  /\ (forall parent,
        p <> [] ->
        get_direntries (parent_parts p) false t = (t, Return parent) ->
        (OD.contains (last_part p) (files parent) = true ->
         rmdir p t = (t, Raise (NotADirectoryError (ArgBytes (join p)))))
        /\ (OD.contains (last_part p) (files parent) = false ->
            OD.contains (last_part p) (subdirs parent) = false ->
            rmdir p t = (t, Raise (FileNotFoundError (ArgBytes (join p)))))
        /\ (forall target,
              OD.get (last_part p) (subdirs parent) = Some target ->
              target <> empty ->
              rmdir p t
              = (t, Raise (IOError
                             (ArgDecoded "Directory not empty: " (join p))))))
  /\ (forall t' x, rmdir p t = (t', Raise x) -> t' = t).
Proof.
  intros Hdis Huniq. split; [now apply rmdir_success_iff|].
  split; [intros t'; now apply rmdir_success_effect|].
  split; [intros ->; reflexivity|].
  split; [intros parent; now apply rmdir_failures|].
  intros t' x. apply rmdir_failure_keeps_tree.
Qed.

Lemma rmdir_contract_witness :
  names_disjoint sample = true
  /\ unique_keys sample = true
  /\ ((exists t', rmdir ["a"; "d"] sample = (t', Return tt))
      <-> (["a"; "d"] <> []
           /\ get_direntries ["a"; "d"] false sample = (sample, Return empty)))
  /\ (forall t' x, rmdir ["a"; "d"] sample = (t', Raise x) -> t' = sample).
Proof.
  pose proof (rmdir_contract ["a"; "d"] sample eq_refl eq_refl)
    as (H1 & _ & _ & _ & H5).
  split; [reflexivity|]. split; [reflexivity|]. split; [exact H1 | exact H5].
Defined.

(** ** Removing a file *)

Lemma unlink_unfold (p : list bytes) (t : direntries) :
  p <> [] ->
  unlink p t
  = match resolve (parent_parts p) t with
    | None =>
        (t, Raise (FileNotFoundError
                     (ArgDecoded "No such directory: "
                        (join (firstn (S (depth (parent_parts p) t))
                                      (parent_parts p))))))
    | Some parent =>
        if OD.contains (last_part p) (subdirs parent) then
          (t, Raise (IsADirectoryError (ArgBytes (join p))))
        else if OD.contains (last_part p) (files parent) then
          (store (parent_parts p)
                 (Entries (OD.remove (last_part p) (files parent))
                          (subdirs parent)) t,
           Return tt)
        else (t, Raise (FileNotFoundError (ArgBytes (join p))))
    end.
Proof.
  intros Hp. destruct p as [|s p]; [congruence|].
  unfold unlink, bind. rewrite get_direntries_lookup.
  destruct (resolve (parent_parts (s :: p)) t) as [parent|]; [|reflexivity].
  destruct (OD.contains _ (subdirs parent)); [reflexivity|].
  unfold OD.del. destruct (OD.contains _ (files parent)); reflexivity.
Qed.

(** Replacing the file dictionary of the parent of [p] by one that
    differs only at the final name of [p] changes no other lookup. *)
Lemma store_files_get_fileentry (p : list bytes) (f f' : OD.t fileentry)
    (d : OD.t direntries) (t : direntries) :
  p <> [] ->
  resolve (parent_parts p) t = Some (Entries f d) ->
  (forall k, k <> last_part p -> OD.get k f' = OD.get k f) ->
  forall q, q <> p ->
    outcome_of (get_fileentry q (store (parent_parts p) (Entries f' d) t))
    = outcome_of (get_fileentry q t).
Proof.
  intros Hp R Hother q Hq. destruct q as [|s q]; [reflexivity|].
  assert (Hne : s :: q <> []) by discriminate.
  rewrite !get_fileentry_lookup by assumption. unfold outcome_of. simpl.
  rewrite (store_files_depth _ _ f' _ _ R).
  pose proof (store_files_resolve _ _ f' _ _ R (parent_parts (s :: q))) as Hr.
  destruct (resolve (parent_parts (s :: q)) t) as [n|] eqn:Rq.
  - destruct Hr as (n' & Rn' & Hkeys & Hfiles). rewrite Rn'.
    rewrite (contains_same_keys _ _ (last_part (s :: q)) _ _ Hkeys).
    destruct (OD.contains (last_part (s :: q)) (subdirs n)); [reflexivity|].
    destruct (list_eq_dec String.string_dec
                (parent_parts (s :: q)) (parent_parts p)) as [Heq|Hdiff].
    + rewrite Heq in Rn', Rq.
      rewrite resolve_store_same in Rn' by congruence.
      injection Rn' as <-. rewrite R in Rq. injection Rq as <-. simpl.
      rewrite Hother; [reflexivity|].
      intros Hlast. apply (same_parent_other_name p (s :: q)); auto.
    + now rewrite (Hfiles Hdiff).
  - now rewrite Hr.
Qed.

Lemma store_files_list (path : list bytes) (f f' : OD.t fileentry)
    (d : OD.t direntries) (t : direntries) :
  resolve path t = Some (Entries f d) ->
  forall q, q <> path ->
    outcome_of (list_ q (store path (Entries f' d) t)) = outcome_of (list_ q t).
Proof.
  intros R q Hq. rewrite !list_lookup. unfold outcome_of. simpl.
  rewrite (store_files_depth _ _ f' _ _ R).
  pose proof (store_files_resolve _ _ f' _ _ R q) as Hr.
  destruct (resolve q t) as [n|].
  - destruct Hr as (n' & -> & Hkeys & Hfiles). now rewrite Hkeys, (Hfiles Hq).
  - now rewrite Hr.
Qed.

(** C8: when a file entry is stored at [p] (in a tree whose dictionaries
    have each key once), [unlink p] returns; listing the parent of [p]
    afterwards yields the sub-directory names in their order followed by
    the file names in their order, the final name of [p] left out and no
    other; nothing is stored at [p] any more, and every other lookup,
    every directory and every other listing is as before. *)
Theorem unlink_removes_one_entry (p : list bytes) (e : fileentry)
    (t : direntries) :
  unique_keys t = true ->
  p <> [] ->
  get_fileentry p t = (t, Return e) ->
  exists t' f d,
    unlink p t = (t', Return tt)
    /\ get_direntries (parent_parts p) false t = (t, Return (Entries f d))
    /\ list_ (parent_parts p) t = (t, Return (OD.keys d ++ OD.keys f))
    /\ list_ (parent_parts p) t'
       = (t', Return (OD.keys d
                      ++ filter (fun k => negb (String.eqb k (last_part p)))
                                (OD.keys f)))
    /\ (forall names, list_ (parent_parts p) t' = (t', Return names) ->
        ~ In (last_part p) names
        /\ forall k, k <> last_part p ->
                     (In k names <-> In k (OD.keys d ++ OD.keys f)))
    /\ file_at p t' = None
    /\ (forall q, q <> p ->
                  outcome_of (get_fileentry q t') = outcome_of (get_fileentry q t))
    /\ (forall q, outcome_of (is_dir q t') = outcome_of (is_dir q t))
    /\ (forall q, q <> parent_parts p ->
                  outcome_of (list_ q t') = outcome_of (list_ q t)).
Proof.
  intros Huniq Hp Hget.
  rewrite get_fileentry_lookup in Hget by assumption.
  destruct (resolve (parent_parts p) t) as [[f d]|] eqn:R; [|discriminate].
  simpl in Hget.
  destruct (OD.contains (last_part p) d) eqn:Cd; [discriminate|].
  destruct (OD.get (last_part p) f) as [e'|] eqn:G; [|discriminate].
  assert (Cf : OD.contains (last_part p) f = true).
  { unfold OD.contains. now rewrite G. }
  assert (Hnd : NoDup (OD.keys f)).
  { pose proof (all_nodes_at _ _ _ _ _ Huniq R) as Hn.
    apply keys_once_spec in Hn. tauto. }
  exists (store (parent_parts p) (Entries (OD.remove (last_part p) f) d) t), f, d.
  assert (Hlist : list_ (parent_parts p)
                    (store (parent_parts p)
                           (Entries (OD.remove (last_part p) f) d) t)
                  = (store (parent_parts p)
                           (Entries (OD.remove (last_part p) f) d) t,
                     Return (OD.keys d
                             ++ filter (fun k => negb (String.eqb k (last_part p)))
                                       (OD.keys f)))).
  { rewrite list_lookup, resolve_store_same by congruence. simpl.
    now rewrite keys_remove. }
  split; [|split; [|split; [|split; [|split; [|split; [|split; [|split]]]]]]].
  - rewrite unlink_unfold, R by assumption. simpl. now rewrite Cd, Cf.
  - now rewrite get_direntries_lookup, R.
  - now rewrite list_lookup, R.
  - exact Hlist.
  - intros names Hnames. rewrite Hlist in Hnames. injection Hnames as <-.
    apply not_contains_not_In in Cd. split.
    + rewrite in_app_iff, filter_In, String.eqb_refl. simpl.
      intros [H|[_ H]]; [contradiction | discriminate].
    + intros k Hk. rewrite !in_app_iff, filter_In.
      destruct (String.eqb_spec k (last_part p)); [contradiction|].
      simpl. tauto.
  - rewrite store_files_file_at_here by congruence.
    now apply get_remove_same.
  - intros q Hq. apply (store_files_get_fileentry p f _ d t Hp R); [|exact Hq].
    intros k Hk. apply get_remove_other. congruence.
  - intros q. rewrite !is_dir_lookup. unfold outcome_of. simpl.
    pose proof (store_files_resolve _ _ (OD.remove (last_part p) f) _ _ R q)
      as Hr.
    destruct (resolve q t) as [n|].
    + destruct Hr as (n' & -> & _). reflexivity.
    + now rewrite Hr.
  - intros q Hq. now apply (store_files_list _ f).
Qed.

Lemma unlink_removes_one_entry_witness :
  unique_keys sample = true
  /\ get_fileentry ["a"; "b.txt"] sample = (sample, Return read_only_entry)
  /\ exists t' f d,
       unlink ["a"; "b.txt"] sample = (t', Return tt)
       /\ get_direntries (parent_parts ["a"; "b.txt"]) false sample
          = (sample, Return (Entries f d))
       /\ list_ (parent_parts ["a"; "b.txt"]) t'
          = (t', Return (OD.keys d
                         ++ filter (fun k => negb (String.eqb k "b.txt"))
                                   (OD.keys f)))
       /\ file_at ["a"; "b.txt"] t' = None.
Proof.
  split; [reflexivity|]. split; [reflexivity|].
  destruct (unlink_removes_one_entry ["a"; "b.txt"] read_only_entry sample)
    as (t' & f & d & H1 & H2 & _ & H4 & _ & H6 & _);
    [reflexivity | discriminate | reflexivity |].
  exists t', f, d. repeat split; assumption.
Defined.

(** ** Predicates and providers *)

Lemma get_fileentry_raises_IOError (p : list bytes) (t : direntries) (x : exn) :
  outcome_of (get_fileentry p t) = Raise x -> is_IOError x = true.
Proof.
  destruct p as [|s p].
  - unfold get_fileentry, raise. simpl. intros H. injection H as <-. reflexivity.
  - rewrite get_fileentry_lookup by discriminate. unfold outcome_of. simpl.
    destruct (resolve _ t) as [n|].
    + destruct (OD.contains _ (subdirs n)).
      * intros H. injection H as <-. reflexivity.
      * destruct (OD.get _ (files n)); [discriminate|].
        intros H. injection H as <-. reflexivity.
    + intros H. injection H as <-. reflexivity.
Qed.

(** [is_file] and [is_dir] return a boolean on every path and tree. *)
Lemma is_file_is_dir_total (p : list bytes) (t : direntries) :
  (exists b, is_file p t = (t, Return b))
  /\ (exists b, is_dir p t = (t, Return b)).
Proof.
  rewrite is_file_lookup, is_dir_lookup. eauto.
Qed.

(** Whatever [get_fileentry] raises, [writable] turns into [False]. *)
Lemma writable_catches_lookup_errors (p : list bytes) (t : direntries)
    (x : exn) :
  get_fileentry p t = (t, Raise x) -> writable p t = (t, Return false).
Proof.
  intros H. pose proof (get_fileentry_raises_IOError p t x) as Hio.
  rewrite H in Hio. specialize (Hio eq_refl).
  unfold writable, try_except_IOError, bind. rewrite H, Hio. reflexivity.
Qed.

(** On a path that names a directory, [get_fileentry] raises
    [IsADirectoryError] and [writable] is [False] through the handler. *)
Lemma writable_of_directory (p : list bytes) (t : direntries) :
  is_dir p t = (t, Return true) ->
  (exists a, get_fileentry p t = (t, Raise (IsADirectoryError a)))
  /\ writable p t = (t, Return false).
Proof.
  intros Hdir. apply is_dir_true in Hdir.
  assert (H : exists a, get_fileentry p t = (t, Raise (IsADirectoryError a))).
  { destruct p as [|s p]; [eexists; reflexivity|].
    assert (Hp : s :: p <> []) by discriminate.
    rewrite (resolve_parts _ t Hp) in Hdir.
    rewrite get_fileentry_lookup by assumption.
    destruct (resolve (parent_parts (s :: p)) t) as [n|]; [|congruence].
    unfold OD.contains.
    destruct (OD.get (last_part (s :: p)) (subdirs n)); [|congruence].
    eexists; reflexivity. }
  split; [exact H|]. destruct H as [a H].
  now apply writable_catches_lookup_errors with (x := IsADirectoryError a).
Qed.

(** On the 4-tuple that [add_file] stores, [writable] tells whether the
    second slot is not [None]. *)
Lemma writable_of_tuple (p : list bytes) (t : direntries)
    (r w s m : pyobj) :
  get_fileentry p t = (t, Return (EntryTuple r w s m)) ->
  writable p t = (t, Return (negb (is_None w))).
Proof.
  intros H. unfold writable, try_except_IOError, bind. now rewrite H.
Qed.

(** On an instance of [FileEntry] whose [open_r] is the base class one or
    returns [None], [open_r] of the collection raises
    [UnsupportedOperation]; likewise [open_w]. *)
Lemma open_without_provider_object (p : list bytes) (t : direntries)
    (o : FileEntry) :
  get_fileentry p t = (t, Return (EntryObject o)) ->
  ((fe_open_r o = NotOverridden \/ fe_open_r o = Returning PyNone) ->
   exists a, open_r p t = (t, Raise (UnsupportedOperation a)))
  /\ ((fe_open_w o = NotOverridden \/ fe_open_w o = Returning PyNone) ->
      exists a, open_w p t = (t, Raise (UnsupportedOperation a))).
Proof.
  intros H. split; intros [Hm|Hm];
    unfold open_r, open_w, bind, lift; rewrite H; simpl; rewrite Hm; simpl;
    eexists; reflexivity.
Qed.

(** C3, where the code departs from it: a [FileEntry] instance registered
    with [add_fileentry] is found by [get_fileentry] and [is_file], but
    [writable] unpacks it as a 4-tuple and so raises [TypeError], which
    its [except IOError] does not catch. *)
Theorem writable_raises_on_FileEntry_instance :
  let t := state_of (add_fileentry ["f"] bare_entry empty) in
  add_fileentry ["f"] bare_entry empty = (t, Return tt)
  /\ get_fileentry ["f"] t = (t, Return bare_entry)
  /\ is_file ["f"] t = (t, Return true)
  /\ is_IOError TypeError = false
  /\ writable ["f"] t = (t, Raise TypeError).
Proof. repeat split. Qed.

(** C4, where the code departs from it: an entry registered through
    [add_file] with no read and no write provider is found by
    [get_fileentry], but [open_r] and [open_w] call a method on the stored
    tuple and so raise [AttributeError], not [UnsupportedOperation]. *)
Theorem open_raises_AttributeError_on_add_file_entry :
  let t := state_of (add_file ["f"] PyNone PyNone PyNone PyNone empty) in
  add_file ["f"] PyNone PyNone PyNone PyNone empty = (t, Return tt)
  /\ get_fileentry ["f"] t = (t, Return (EntryTuple PyNone PyNone PyNone PyNone))
  /\ open_r ["f"] t = (t, Raise AttributeError)
  /\ open_w ["f"] t = (t, Raise AttributeError).
Proof. repeat split. Qed.

(** ** A run of the collection *)

(** Two files registered through [add_file] under [a], then listed,
    probed, unlinked, and the directory removed. *)
Example scenario :
  let t0 := empty in
  let t1 := state_of (add_file ["a"; "b.txt"] (PyObj 1) PyNone (PyObj 10) PyNone t0) in
  let t2 := state_of (add_file ["a"; "c.txt"] (PyObj 2) (PyObj 3) (PyObj 0) PyNone t1) in
  let t3 := state_of (unlink ["a"; "b.txt"] t2) in
  let t4 := state_of (unlink ["a"; "c.txt"] t3) in
  let t5 := state_of (rmdir ["a"] t4) in
  outcome_of (list_ ["a"] t2) = Return ["b.txt"; "c.txt"]
  /\ outcome_of (is_dir ["a"] t2) = Return true
  /\ outcome_of (is_file ["a"; "b.txt"] t2) = Return true
  /\ outcome_of (writable ["a"; "b.txt"] t2) = Return false
  /\ outcome_of (writable ["a"; "c.txt"] t2) = Return true
  /\ outcome_of (list_ ["a"] t3) = Return ["c.txt"]
  /\ rmdir ["a"] t3
     = (t3, Raise (IOError (ArgDecoded "Directory not empty: " "a")))
  /\ outcome_of (rmdir ["a"] t4) = Return tt
  /\ outcome_of (is_dir ["a"] t5) = Return false
  /\ outcome_of (get_fileentry ["a"; "c.txt"] t5)
     = Raise (FileNotFoundError (ArgDecoded "No such directory: " "a"))
  /\ t5 = empty.
Proof. repeat split. Qed.

(** On a new collection every registration at a non-empty path returns,
    so the round trip of registration and lookup always applies there. *)
Lemma loop_create_from_empty (rest parts : list bytes) (idx : nat) :
  exists t1, get_direntries_loop parts true idx rest empty = (t1, Return empty).
Proof.
  revert idx. induction rest as [|s rest IH]; intros idx; simpl.
  - eauto.
  - destruct (IH (S idx)) as [c ->]. eauto.
Qed.

Lemma register_on_new_collection (p : list bytes) (e : fileentry) :
  p <> [] ->
  exists t', add_fileentry p e empty = (t', Return tt)
             /\ get_fileentry p t' = (t', Return e).
Proof.
  intros Hp. rewrite add_fileentry_unfold by assumption.
  unfold get_direntries.
  destruct (loop_create_from_empty (parent_parts p) (parent_parts p) 0)
    as [t1 L].
  rewrite L. simpl. eexists. split; [reflexivity|].
  apply loop_create_resolve in L.
  rewrite get_fileentry_lookup by assumption.
  rewrite resolve_store_same by congruence. simpl.
  now rewrite String.eqb_refl.
Qed.

(* ================================================================== *)
(** * Further properties of the collection *)

(** ** Helpers *)

Lemma is_dir_false (q : list bytes) (t : direntries) :
  is_dir q t = (t, Return false) <-> resolve q t = None.
Proof.
  rewrite is_dir_lookup. destruct (resolve q t); split; congruence.
Qed.

Lemma is_file_true (p : list bytes) (t : direntries) :
  is_file p t = (t, Return true)
  <-> exists e, get_fileentry p t = (t, Return e).
Proof.
  rewrite is_file_lookup. pose proof (get_fileentry_state p t) as Hs.
  destruct (get_fileentry p t) as [t' [e|x]]; unfold state_of, outcome_of in *;
    simpl in *; subst t'.
  - split; eauto.
  - split; [discriminate | intros [e H]; discriminate].
Qed.

Lemma is_file_false (p : list bytes) (t : direntries) :
  is_file p t = (t, Return false)
  <-> exists x, get_fileentry p t = (t, Raise x).
Proof.
  rewrite is_file_lookup. pose proof (get_fileentry_state p t) as Hs.
  destruct (get_fileentry p t) as [t' [e|x]]; unfold state_of, outcome_of in *;
    simpl in *; subst t'.
  - split; [discriminate | intros [x H]; discriminate].
  - split; eauto.
Qed.

Lemma store_store (path : list bytes) (n1 n2 t : direntries) :
  store path n2 (store path n1 t) = store path n2 t.
Proof.
  revert t. induction path as [|s path IH]; intros [f d]; simpl; [reflexivity|].
  destruct (OD.get s d) as [child|] eqn:E; simpl.
  - rewrite get_set_same, IH, set_set. reflexivity.
  - now rewrite E.
Qed.

Lemma remove_set_new (V : Type) (k : bytes) (v : V) (d : OD.t V) :
  OD.get k d = None -> OD.remove k (OD.set k v d) = d.
Proof.
  induction d as [|[k' v'] d IH]; simpl.
  - now rewrite String.eqb_refl.
  - destruct (String.eqb k k') eqn:E; [discriminate|].
    intros H. simpl. rewrite E. now rewrite IH.
Qed.

(** The entry stored by a registration that returns is the one found. *)
Lemma lookup_after_add_fileentry (p : list bytes) (e : fileentry)
    (t t' : direntries) :
  add_fileentry p e t = (t', Return tt) ->
  p <> [] /\ get_fileentry p t' = (t', Return e).
Proof.
  intros H. assert (Hp : p <> []) by (intros ->; discriminate).
  split; [assumption|].
  rewrite add_fileentry_unfold in H by assumption.
  destruct (get_direntries (parent_parts p) true t) as [t1 [n|x]] eqn:L;
    [|discriminate].
  destruct (OD.contains (last_part p) (subdirs n)) eqn:C; [discriminate|].
  injection H as <-. apply loop_create_resolve in L.
  rewrite get_fileentry_lookup by assumption.
  rewrite resolve_store_same by congruence. simpl.
  now rewrite C, get_set_same.
Qed.

(** A creating walk that raises does so at a segment that is a file of
    the node reached so far, with [FileExistsError] for the path up to
    that segment. *)
Lemma loop_create_raise (rest parts : list bytes) (idx : nat)
    (t t1 : direntries) (x : exn) :
  get_direntries_loop parts true idx rest t = (t1, Raise x) ->
  exists pre seg post n,
    rest = pre ++ seg :: post
    /\ x = FileExistsError
             (ArgBytes (join (firstn (S (idx + List.length pre)) parts)))
    /\ resolve pre t1 = Some n
    /\ OD.get seg (subdirs n) = None
    /\ OD.contains seg (files n) = true.
Proof.
  revert idx t t1. induction rest as [|s rest IH]; intros idx [f d] t1; simpl.
  - discriminate.
  - destruct (OD.get s d) as [child|] eqn:E.
    + destruct (get_direntries_loop parts true (S idx) rest child)
        as [child' r'] eqn:L.
      intros H. injection H as <- ->.
      destruct (IH _ _ _ L) as (pre & seg & post & n & -> & -> & R & G & C).
      exists (s :: pre), seg, post, n.
      replace (idx + List.length (s :: pre)) with (S idx + List.length pre)
        by (simpl; lia).
      repeat split; auto. simpl. now rewrite get_set_same.
    + destruct (OD.contains s f) eqn:C.
      * intros H. injection H as <- <-.
        exists [], s, rest, (Entries f d). simpl.
        rewrite Nat.add_0_r. repeat split; auto.
      * destruct (get_direntries_loop parts true (S idx) rest empty)
          as [child' r'] eqn:L.
        intros H. injection H as <- ->.
        destruct (IH _ _ _ L) as (pre & seg & post & n & -> & -> & R & G & C').
        exists (s :: pre), seg, post, n.
        replace (idx + List.length (s :: pre)) with (S idx + List.length pre)
          by (simpl; lia).
        repeat split; auto. simpl. now rewrite get_set_same.
Qed.

(** A creating walk through an existing prefix onto a segment that is a
    file raises there and changes nothing. *)
Lemma loop_create_blocked (pre post parts : list bytes) (seg : bytes)
    (idx : nat) (t n : direntries) :
  resolve pre t = Some n ->
  OD.get seg (subdirs n) = None ->
  OD.contains seg (files n) = true ->
  get_direntries_loop parts true idx (pre ++ seg :: post) t
  = (t, Raise (FileExistsError
                 (ArgBytes (join (firstn (S (idx + List.length pre)) parts))))).
Proof.
  revert idx t. induction pre as [|s pre IH]; intros idx [f d]; simpl.
  - intros H G C. injection H as <-. simpl in *. rewrite G, C.
    now rewrite Nat.add_0_r.
  - destruct (OD.get s d) as [child|] eqn:E; [|discriminate].
    intros H G C. rewrite (IH (S idx) child H G C).
    rewrite (set_get_id _ _ _ _ E).
    replace (idx + S (List.length pre)) with (S idx + List.length pre) by lia.
    reflexivity.
Qed.

(** Directories are never lost by a creating walk. *)
Lemma loop_create_keeps_dirs (rest parts : list bytes) (idx : nat)
    (t t1 : direntries) (r : outcome direntries) (q : list bytes) :
  get_direntries_loop parts true idx rest t = (t1, r) ->
  resolve q t <> None -> resolve q t1 <> None.
Proof.
  intros L Hq. pose proof (loop_create_files _ _ _ _ _ _ L q) as H.
  destruct (resolve q t) as [n|]; [|congruence].
  destruct (resolve q t1); [congruence | discriminate].
Qed.

(** ** mkdirs *)

Lemma mkdirs_unfold (p : list bytes) (t : direntries) :
  mkdirs p t
  = match get_direntries_loop p true 0 p t with
    | (t1, Return _) => (t1, Return tt)
    | (t1, Raise x) => (t1, Raise x)
    end.
Proof.
  unfold mkdirs, bind, get_direntries.
  destruct (get_direntries_loop p true 0 p t) as [t1 [n|x]]; reflexivity.
Qed.

(** X1: [mkdirs] is idempotent: a second [mkdirs p] right after the
    first changes nothing more and ends as the first did, whether that
    returned or raised. *)
Theorem mkdirs_twice (p : list bytes) (t : direntries) :
  mkdirs p (state_of (mkdirs p t)) = mkdirs p t.
Proof.
  rewrite !mkdirs_unfold.
  destruct (get_direntries_loop p true 0 p t) as [t1 r] eqn:L.
  pose proof (loop_create_again _ _ _ _ _ _ L) as L'.
  destruct r as [n|x]; unfold state_of; simpl; now rewrite L'.
Qed.

(** X2: when [mkdirs p] returns, the directories of the tree are those
    it had before together with every prefix of [p], [p] included, and
    every path holds the file entry it held before. *)
Theorem mkdirs_makes_prefixes (p : list bytes) (t t' : direntries) :
  mkdirs p t = (t', Return tt) ->
  (forall q, is_dir q t' = (t', Return true)
             <-> (is_dir q t = (t, Return true) \/ extends p q))
  /\ (forall q, file_at q t' = file_at q t).
Proof.
  rewrite mkdirs_unfold.
  destruct (get_direntries_loop p true 0 p t) as [t1 [n|x]] eqn:L;
    [|discriminate].
  intros H. injection H as <-. split.
  - intros q. rewrite !is_dir_true. apply (loop_create_dirs _ _ _ _ _ _ L).
  - intros q. apply (loop_create_file_at _ _ _ _ _ _ _ L).
Qed.

Lemma mkdirs_makes_prefixes_witness :
  let t' := state_of (mkdirs ["x"; "y"] sample) in
  (forall q, is_dir q t' = (t', Return true)
             <-> (is_dir q sample = (sample, Return true)
                  \/ extends ["x"; "y"] q))
  /\ (forall q, file_at q t' = file_at q sample).
Proof.
  apply (mkdirs_makes_prefixes ["x"; "y"] sample). reflexivity.
Defined.

(** X3: when [mkdirs p] raises, it raises [FileExistsError] for a prefix
    [pre/seg] of [p] at which a file is stored; the directories up to
    [pre] exist afterwards (those missing have been created and stay),
    no directory the tree had is lost, and every path holds the file entry
    it held before. *)
Theorem mkdirs_raises_on_file (p : list bytes) (t t' : direntries) (x : exn) :
  mkdirs p t = (t', Raise x) ->
  (exists pre seg post,
     p = pre ++ seg :: post
     /\ x = FileExistsError (ArgBytes (join (pre ++ [seg])))
     /\ is_dir pre t' = (t', Return true)
     /\ is_file (pre ++ [seg]) t' = (t', Return true))
  /\ (forall q, is_dir q t = (t, Return true) -> is_dir q t' = (t', Return true))
  /\ (forall q, file_at q t' = file_at q t).
Proof.
  rewrite mkdirs_unfold.
  destruct (get_direntries_loop p true 0 p t) as [t1 [n|x']] eqn:L;
    [discriminate|].
  intros H. injection H as <- <-. split; [|split].
  - destruct (loop_create_raise _ _ _ _ _ _ L)
      as (pre & seg & post & n & Hp & Hx & R & G & C).
    exists pre, seg, post. split; [assumption|]. split.
    + rewrite Hx, Hp. cbn [Nat.add]. now rewrite firstn_through.
    + split; [apply is_dir_true; congruence|].
      apply is_file_true.
      rewrite get_fileentry_lookup
        by (intros E; apply app_eq_nil in E as [_ E]; discriminate).
      rewrite parent_parts_snoc, last_part_snoc, R.
      apply contains_false in G. rewrite G.
      apply contains_get in C as [e C]. rewrite C. eauto.
  - intros q. rewrite !is_dir_true. apply (loop_create_keeps_dirs _ _ _ _ _ _ _ L).
  - intros q. apply (loop_create_file_at _ _ _ _ _ _ _ L).
Qed.

Lemma mkdirs_raises_on_file_witness :
  exists pre seg post,
    ["a"; "b.txt"; "c"] = pre ++ seg :: post
    /\ FileExistsError (ArgBytes "a/b.txt")
       = FileExistsError (ArgBytes (join (pre ++ [seg])))
    /\ is_dir pre sample = (sample, Return true)
    /\ is_file (pre ++ [seg]) sample = (sample, Return true).
Proof.
  exact (proj1 (mkdirs_raises_on_file ["a"; "b.txt"; "c"] sample sample
                  (FileExistsError (ArgBytes "a/b.txt")) eq_refl)).
Defined.

(** X4: once a file is registered at [p], creating a directory at [p] or
    anywhere below it raises [FileExistsError] for [p] and changes
    nothing. *)
Theorem mkdirs_onto_registered_file (p post : list bytes) (e : fileentry)
    (t t' : direntries) :
  add_fileentry p e t = (t', Return tt) ->
  mkdirs (p ++ post) t' = (t', Raise (FileExistsError (ArgBytes (join p)))).
Proof.
  intros H. assert (Hp : p <> []) by (intros ->; discriminate).
  rewrite add_fileentry_unfold in H by assumption.
  destruct (get_direntries (parent_parts p) true t) as [t1 [[f d]|x]] eqn:L;
    [|discriminate].
  simpl in H. destruct (OD.contains (last_part p) d) eqn:C; [discriminate|].
  injection H as <-. apply loop_create_resolve in L.
  assert (Hsplit : p ++ post = parent_parts p ++ last_part p :: post).
  { rewrite (parts_split p Hp) at 1. now rewrite <- app_assoc. }
  rewrite mkdirs_unfold, Hsplit.
  erewrite loop_create_blocked.
  - cbn [Nat.add]. rewrite firstn_through, <- parts_split by assumption.
    reflexivity.
  - apply resolve_store_same. congruence.
  - simpl. now apply contains_false.
  - simpl. unfold OD.contains. now rewrite get_set_same.
Qed.

Lemma mkdirs_onto_registered_file_witness :
  let t' := state_of (add_fileentry ["a"; "c.txt"] tuple_entry sample) in
  mkdirs (["a"; "c.txt"] ++ ["z"]) t'
  = (t', Raise (FileExistsError (ArgBytes "a/c.txt"))).
Proof.
  apply (mkdirs_onto_registered_file ["a"; "c.txt"] ["z"] tuple_entry sample).
  reflexivity.
Defined.

(** A creating walk to a new leaf below an existing directory appends an
    empty directory to that directory's sub-directories. *)
Lemma loop_create_leaf (pre parts : list bytes) (name : bytes) (idx : nat)
    (f : OD.t fileentry) (d : OD.t direntries) (t : direntries) :
  resolve pre t = Some (Entries f d) ->
  OD.get name d = None ->
  OD.contains name f = false ->
  get_direntries_loop parts true idx (pre ++ [name]) t
  = (store pre (Entries f (OD.set name empty d)) t, Return empty).
Proof.
  revert idx t. induction pre as [|s pre IH]; intros idx [F D]; simpl.
  - intros H G C. injection H as -> ->. rewrite G, C, set_set. reflexivity.
  - destruct (OD.get s D) as [child|] eqn:E; [|discriminate].
    intros H G C. now rewrite (IH (S idx) child H G C).
Qed.

(** What the three predicates at [p] say of the parent node when the
    parent is a directory and [p] is neither a directory nor a file. *)
Lemma vacant_name (p : list bytes) (t : direntries) :
  p <> [] ->
  is_dir (parent_parts p) t = (t, Return true) ->
  is_dir p t = (t, Return false) ->
  is_file p t = (t, Return false) ->
  exists f d,
    resolve (parent_parts p) t = Some (Entries f d)
    /\ OD.get (last_part p) d = None
    /\ OD.get (last_part p) f = None.
Proof.
  intros Hp Hpar Hdir Hfile.
  apply is_dir_true in Hpar. apply is_dir_false in Hdir.
  apply is_file_false in Hfile as [x Hx].
  rewrite (resolve_parts _ t Hp) in Hdir.
  rewrite get_fileentry_lookup in Hx by assumption.
  destruct (resolve (parent_parts p) t) as [[f d]|]; [|congruence].
  simpl in *. exists f, d. split; [reflexivity|]. split; [assumption|].
  unfold OD.contains in Hx. rewrite Hdir in Hx.
  destruct (OD.get (last_part p) f); [discriminate | reflexivity].
Qed.

(** X5: where the parent of [p] is a directory and nothing is at [p],
    [mkdirs p] returns and [rmdir p] right after it returns and gives back
    exactly the tree there was before. *)
Theorem mkdirs_then_rmdir (p : list bytes) (t : direntries) :
  p <> [] ->
  is_dir (parent_parts p) t = (t, Return true) ->
  is_dir p t = (t, Return false) ->
  is_file p t = (t, Return false) ->
  exists t1, mkdirs p t = (t1, Return tt) /\ rmdir p t1 = (t, Return tt).
Proof.
  intros Hp Hpar Hdir Hfile.
  destruct (vacant_name p t Hp Hpar Hdir Hfile) as (f & d & R & Gd & Gf).
  exists (store (parent_parts p) (Entries f (OD.set (last_part p) empty d)) t).
  split.
  - rewrite mkdirs_unfold. rewrite (parts_split p Hp) at 2.
    rewrite (loop_create_leaf _ _ _ _ _ _ _ R Gd); [reflexivity|].
    now apply contains_false.
  - rewrite rmdir_unfold by assumption.
    rewrite resolve_store_same by congruence. simpl.
    apply contains_false in Gf. rewrite Gf, get_set_same. simpl.
    rewrite store_store, remove_set_new by assumption.
    now rewrite (store_resolve_id _ _ _ R).
Qed.

Lemma mkdirs_then_rmdir_witness :
  exists t1, mkdirs ["a"; "e"] sample = (t1, Return tt)
             /\ rmdir ["a"; "e"] t1 = (sample, Return tt).
Proof.
  apply (mkdirs_then_rmdir ["a"; "e"] sample);
    [discriminate | reflexivity | reflexivity | reflexivity].
Defined.

(** X6: where the parent of [p] is a directory and nothing is at [p],
    [add_fileentry p e] returns and [unlink p] right after it returns and
    gives back exactly the tree there was before. *)
Theorem add_fileentry_then_unlink (p : list bytes) (e : fileentry)
    (t : direntries) :
  p <> [] ->
  is_dir (parent_parts p) t = (t, Return true) ->
  is_dir p t = (t, Return false) ->
  is_file p t = (t, Return false) ->
  exists t1, add_fileentry p e t = (t1, Return tt)
             /\ unlink p t1 = (t, Return tt).
Proof.
  intros Hp Hpar Hdir Hfile.
  destruct (vacant_name p t Hp Hpar Hdir Hfile) as (f & d & R & Gd & Gf).
  exists (store (parent_parts p) (Entries (OD.set (last_part p) e f) d) t).
  split.
  - rewrite add_fileentry_unfold by assumption. unfold get_direntries.
    rewrite (loop_create_existing _ _ _ _ _ R). simpl.
    apply contains_false in Gd. now rewrite Gd.
  - rewrite unlink_unfold by assumption.
    rewrite resolve_store_same by congruence. simpl.
    apply contains_false in Gd. rewrite Gd.
    unfold OD.contains at 1. rewrite get_set_same.
    rewrite store_store, remove_set_new by assumption.
    now rewrite (store_resolve_id _ _ _ R).
Qed.

Lemma add_fileentry_then_unlink_witness :
  exists t1, add_fileentry ["a"; "c.txt"] tuple_entry sample = (t1, Return tt)
             /\ unlink ["a"; "c.txt"] t1 = (sample, Return tt).
Proof.
  apply (add_fileentry_then_unlink ["a"; "c.txt"] tuple_entry sample);
    [discriminate | reflexivity | reflexivity | reflexivity].
Defined.

(** X7: registering at a path that already holds a file replaces the
    entry: after a registration of [e1] at [p] that returned, registering
    [e2] at [p] gives the same tree and outcome as registering [e2] there
    in the first place. *)
Theorem add_fileentry_last_wins (p : list bytes) (e1 e2 : fileentry)
    (t t1 : direntries) :
  add_fileentry p e1 t = (t1, Return tt) ->
  add_fileentry p e2 t1 = add_fileentry p e2 t.
Proof.
  intros H. assert (Hp : p <> []) by (intros ->; discriminate).
  rewrite add_fileentry_unfold in H by assumption.
  rewrite !add_fileentry_unfold by assumption.
  destruct (get_direntries (parent_parts p) true t) as [t0 [[f d]|x]] eqn:L;
    [|discriminate].
  simpl in *. destruct (OD.contains (last_part p) d) eqn:C; [discriminate|].
  injection H as <-. apply loop_create_resolve in L.
  unfold get_direntries.
  rewrite (loop_create_existing _ _ _ _
             (Entries (OD.set (last_part p) e1 f) d))
    by (apply resolve_store_same; congruence).
  simpl. now rewrite C, store_store, set_set.
Qed.

Lemma add_fileentry_last_wins_witness :
  add_fileentry ["a"; "b.txt"] tuple_entry
                (state_of (add_fileentry ["a"; "b.txt"] bare_entry sample))
  = add_fileentry ["a"; "b.txt"] tuple_entry sample.
Proof.
  apply (add_fileentry_last_wins ["a"; "b.txt"] bare_entry tuple_entry sample).
  reflexivity.
Defined.

(** X8: in the listing of its parent, a newly registered file comes last
    and a replaced one keeps its place: if the parent of [p] was a
    directory with files [f] and sub-directories [d], then after
    [add_fileentry p e] returned the parent lists the names of [d], then
    the names of [f], then the final name of [p] unless it was among
    them. *)
Theorem listing_after_add_fileentry (p : list bytes) (e : fileentry)
    (t t' : direntries) (f : OD.t fileentry) (d : OD.t direntries) :
  get_direntries (parent_parts p) false t = (t, Return (Entries f d)) ->
  add_fileentry p e t = (t', Return tt) ->
  list_ (parent_parts p) t'
  = (t', Return (OD.keys d ++ OD.keys f
                 ++ if OD.contains (last_part p) f then []
                    else [last_part p])).
Proof.
  intros Hpar H. assert (Hp : p <> []) by (intros ->; discriminate).
  rewrite get_direntries_lookup in Hpar.
  destruct (resolve (parent_parts p) t) as [n|] eqn:R; [|discriminate].
  injection Hpar as ->.
  rewrite add_fileentry_unfold in H by assumption. unfold get_direntries in H.
  rewrite (loop_create_existing _ _ _ _ _ R) in H. simpl in H.
  destruct (OD.contains (last_part p) d); [discriminate|].
  injection H as <-.
  rewrite list_lookup, resolve_store_same by congruence. simpl.
  unfold OD.contains. destruct (OD.get (last_part p) f) eqn:G.
  - rewrite keys_set_present by congruence. now rewrite app_nil_r.
  - now rewrite keys_set_absent.
Qed.

Lemma listing_after_add_fileentry_witness :
  let t' := state_of (add_fileentry ["a"; "c.txt"] tuple_entry sample) in
  list_ ["a"] t' = (t', Return ["d"; "b.txt"; "c.txt"]).
Proof.
  apply (listing_after_add_fileentry ["a"; "c.txt"] tuple_entry sample _
           [("b.txt", read_only_entry)] [("d", empty)]);
    reflexivity.
Defined.

(** X9: a directory newly made by [mkdirs] is listed after the
    sub-directories its parent had and before the parent's files. *)
Theorem listing_after_mkdirs (p : list bytes) (t t' : direntries)
    (f : OD.t fileentry) (d : OD.t direntries) :
  p <> [] ->
  get_direntries (parent_parts p) false t = (t, Return (Entries f d)) ->
  is_dir p t = (t, Return false) ->
  mkdirs p t = (t', Return tt) ->
  list_ (parent_parts p) t'
  = (t', Return (OD.keys d ++ [last_part p] ++ OD.keys f)).
Proof.
  intros Hp Hpar Hdir H.
  rewrite get_direntries_lookup in Hpar.
  destruct (resolve (parent_parts p) t) as [n|] eqn:R; [|discriminate].
  injection Hpar as ->.
  apply is_dir_false in Hdir. rewrite (resolve_parts _ t Hp), R in Hdir.
  simpl in Hdir.
  rewrite mkdirs_unfold in H. rewrite (parts_split p Hp) in H at 2.
  destruct (OD.contains (last_part p) f) eqn:C.
  - rewrite (loop_create_blocked _ [] _ _ _ _ _ R Hdir C) in H. discriminate.
  - rewrite (loop_create_leaf _ _ _ _ _ _ _ R Hdir C) in H.
    injection H as <-.
    rewrite list_lookup, resolve_store_same by congruence. simpl.
    rewrite keys_set_absent by assumption. now rewrite <- app_assoc.
Qed.

Lemma listing_after_mkdirs_witness :
  let t' := state_of (mkdirs ["a"; "e"] sample) in
  list_ ["a"] t' = (t', Return ["d"; "e"; "b.txt"]).
Proof.
  apply (listing_after_mkdirs ["a"; "e"] sample _
           [("b.txt", read_only_entry)] [("d", empty)]);
    [discriminate | reflexivity | reflexivity | reflexivity].
Defined.

(** ** Calls that leave the collection alone *)

(** X10: every call other than registration, [mkdirs], [rmdir],
    [unlink] and a creating [get_direntries] leaves the tree exactly as it
    was, whether it returns or raises; in particular no lookup, listing or
    predicate creates a directory. *)
Theorem readers_keep_tree (c : fc_call) (t : direntries) :
  reads_only c = true -> after c t = t.
Proof.
  destruct c; simpl; try discriminate; intros H.
  - apply get_fileentry_state.
  - destruct create; [discriminate|]. apply get_direntries_lookup_state.
  - apply open_r_state.
  - apply open_w_state.
  - now rewrite list_lookup.
  - apply filesize_state.
  - apply mtime_state.
  - reflexivity.
  - reflexivity.
  - now rewrite is_file_lookup.
  - now rewrite is_dir_lookup.
  - apply writable_state.
  - reflexivity.
  - reflexivity.
Qed.

Lemma readers_keep_tree_witness :
  after (CallOpenR ["a"; "b.txt"]) sample = sample.
Proof.
  apply (readers_keep_tree (CallOpenR ["a"; "b.txt"]) sample). reflexivity.
Defined.

(** ** unlink *)

(** X11: for a non-empty path, [unlink] returns exactly when
    [get_fileentry] finds a file there, and otherwise raises the very
    exception [get_fileentry] raises and leaves the tree unchanged. *)
Theorem unlink_follows_get_fileentry (p : list bytes) (t : direntries) :
  p <> [] ->
  match outcome_of (get_fileentry p t) with
  | Return _ => exists t', unlink p t = (t', Return tt)
  | Raise x => unlink p t = (t, Raise x)
  end.
Proof.
  intros Hp. rewrite unlink_unfold, get_fileentry_lookup by assumption.
  unfold outcome_of. simpl.
  destruct (resolve (parent_parts p) t) as [n|]; [|reflexivity].
  destruct (OD.contains (last_part p) (subdirs n)); [reflexivity|].
  unfold OD.contains.
  destruct (OD.get (last_part p) (files n)); [eauto | reflexivity].
Qed.

Lemma unlink_follows_get_fileentry_witness :
  unlink ["a"; "d"] sample
  = (sample, Raise (IsADirectoryError (ArgBytes "a/d"))).
Proof.
  exact (unlink_follows_get_fileentry ["a"; "d"] sample
           ltac:(discriminate)).
Defined.

(** X12: in a tree whose dictionaries have each key once, after
    [unlink p] returned, [get_fileentry p] raises [FileNotFoundError] for
    [p] and [is_file p] is false, while the parent of [p] is still a
    directory. *)
Theorem lookup_after_unlink (p : list bytes) (t t' : direntries) :
  unique_keys t = true ->
  unlink p t = (t', Return tt) ->
  get_fileentry p t' = (t', Raise (FileNotFoundError (ArgBytes (join p))))
  /\ is_file p t' = (t', Return false)
  /\ is_dir (parent_parts p) t' = (t', Return true).
Proof.
  intros Huniq H. assert (Hp : p <> []) by (intros ->; discriminate).
  rewrite unlink_unfold in H by assumption.
  destruct (resolve (parent_parts p) t) as [[f d]|] eqn:R; [|discriminate].
  simpl in H. destruct (OD.contains (last_part p) d) eqn:Cd; [discriminate|].
  destruct (OD.contains (last_part p) f) eqn:Cf; [|discriminate].
  injection H as <-.
  assert (Hnd : NoDup (OD.keys f)).
  { pose proof (all_nodes_at _ _ _ _ _ Huniq R) as Hn.
    apply keys_once_spec in Hn. tauto. }
  assert (Hget : get_fileentry p
                   (store (parent_parts p)
                          (Entries (OD.remove (last_part p) f) d) t)
                 = (store (parent_parts p)
                          (Entries (OD.remove (last_part p) f) d) t,
                    Raise (FileNotFoundError (ArgBytes (join p))))).
  { rewrite get_fileentry_lookup by assumption.
    rewrite resolve_store_same by congruence. simpl.
    now rewrite Cd, get_remove_same. }
  split; [exact Hget|]. split.
  - apply is_file_false. eauto.
  - apply is_dir_true. rewrite resolve_store_same; congruence.
Qed.

Lemma lookup_after_unlink_witness :
  let t' := state_of (unlink ["a"; "b.txt"] sample) in
  get_fileentry ["a"; "b.txt"] t'
  = (t', Raise (FileNotFoundError (ArgBytes "a/b.txt")))
  /\ is_file ["a"; "b.txt"] t' = (t', Return false)
  /\ is_dir (parent_parts ["a"; "b.txt"]) t' = (t', Return true).
Proof.
  apply (lookup_after_unlink ["a"; "b.txt"] sample); reflexivity.
Defined.

(** ** The predicates *)

(** X13: where [is_file] is true the path is not the root, [is_dir] is
    false there and the parent path is a directory: to the predicates no
    path is both a file and a directory. *)
Theorem is_file_not_is_dir (p : list bytes) (t : direntries) :
  is_file p t = (t, Return true) ->
  p <> []
  /\ is_dir p t = (t, Return false)
  /\ is_dir (parent_parts p) t = (t, Return true).
Proof.
  intros H. apply is_file_true in H as [e H].
  assert (Hp : p <> []) by (intros ->; discriminate).
  split; [assumption|].
  rewrite get_fileentry_lookup in H by assumption.
  rewrite is_dir_false, is_dir_true, (resolve_parts _ t Hp).
  destruct (resolve (parent_parts p) t) as [n|]; [|discriminate].
  unfold OD.contains in H.
  destruct (OD.get (last_part p) (subdirs n)); [discriminate|].
  split; congruence.
Qed.

Lemma is_file_not_is_dir_witness :
  ["a"; "b.txt"] <> []
  /\ is_dir ["a"; "b.txt"] sample = (sample, Return false)
  /\ is_dir (parent_parts ["a"; "b.txt"]) sample = (sample, Return true).
Proof.
  apply (is_file_not_is_dir ["a"; "b.txt"] sample). reflexivity.
Defined.

(** X14: [writable] is true only of a file, and only of one stored as a
    4-tuple whose second slot is not [None]. *)
Theorem writable_only_of_tuple (p : list bytes) (t : direntries) :
  writable p t = (t, Return true) ->
  is_file p t = (t, Return true)
  /\ exists r w s m,
       get_fileentry p t = (t, Return (EntryTuple r w s m))
       /\ is_None w = false.
Proof.
  intros H. pose proof (get_fileentry_state p t) as Hs.
  destruct (get_fileentry p t) as [t1 [e|x]] eqn:G;
    unfold state_of in Hs; simpl in Hs; subst t1.
  - split; [apply is_file_true; eauto|].
    unfold writable, try_except_IOError, bind, lift, ret in H. rewrite G in H.
    destruct e as [o|r w s m]; simpl in H; [discriminate|].
    exists r, w, s, m. split; [reflexivity|].
    injection H as H. now apply negb_true_iff in H.
  - rewrite (writable_catches_lookup_errors p t x G) in H. discriminate.
Qed.

Lemma writable_only_of_tuple_witness :
  let t := state_of (add_file_from_path ["w"] rw_path empty) in
  is_file ["w"] t = (t, Return true)
  /\ exists r w s m,
       get_fileentry ["w"] t = (t, Return (EntryTuple r w s m))
       /\ is_None w = false.
Proof.
  apply (writable_only_of_tuple ["w"]
           (state_of (add_file_from_path ["w"] rw_path empty))).
  reflexivity.
Defined.

(** X15: every prefix of a directory path is a directory path. *)
Theorem is_dir_of_prefix (p q : list bytes) (t : direntries) :
  is_dir (p ++ q) t = (t, Return true) -> is_dir p t = (t, Return true).
Proof.
  rewrite !is_dir_true, resolve_app.
  destruct (resolve p t); congruence.
Qed.

Lemma is_dir_of_prefix_witness : is_dir ["a"] sample = (sample, Return true).
Proof.
  apply (is_dir_of_prefix ["a"] ["d"] sample). reflexivity.
Defined.

(** ** list *)

(** X16: the names [list p] yields are exactly the names [n] for which
    [p/n] is a directory or a file. *)
Theorem list_names_children (p : list bytes) (t : direntries)
    (names : list bytes) :
  list_ p t = (t, Return names) ->
  forall name,
    In name names
    <-> (is_dir (p ++ [name]) t = (t, Return true)
         \/ is_file (p ++ [name]) t = (t, Return true)).
Proof.
  intros H name. rewrite list_lookup in H.
  destruct (resolve p t) as [n|] eqn:R; [|discriminate].
  injection H as <-.
  rewrite is_dir_true, is_file_true, resolve_app, R.
  rewrite get_fileentry_lookup
    by (intros E; apply app_eq_nil in E as [_ E]; discriminate).
  rewrite parent_parts_snoc, last_part_snoc, R. simpl.
  rewrite in_app_iff, <- !get_In. unfold OD.contains.
  destruct (OD.get name (subdirs n)) as [c|].
  - split; [left; congruence | left; congruence].
  - destruct (OD.get name (files n)) as [e|].
    + split; [right; eauto | right; congruence].
    + split; [intros [H|H]; congruence|].
      intros [H|[e H]]; [congruence | discriminate].
Qed.

Lemma list_names_children_witness :
  In "b.txt" ["d"; "b.txt"]
  <-> (is_dir (["a"] ++ ["b.txt"]) sample = (sample, Return true)
       \/ is_file (["a"] ++ ["b.txt"]) sample = (sample, Return true)).
Proof.
  apply (list_names_children ["a"] sample ["d"; "b.txt"]). reflexivity.
Defined.

(** X17: in a tree with the invariants of a collection, [list] yields no
    name twice. *)
Theorem list_names_once (p : list bytes) (t : direntries)
    (names : list bytes) :
  names_disjoint t = true ->
  unique_keys t = true ->
  list_ p t = (t, Return names) ->
  NoDup names.
Proof.
  intros Hdis Huniq H. rewrite list_lookup in H.
  destruct (resolve p t) as [[f d]|] eqn:R; [|discriminate].
  injection H as <-. simpl.
  pose proof (all_nodes_at _ _ _ _ _ Huniq R) as Hk.
  apply keys_once_spec in Hk as [Hf Hd].
  pose proof (all_nodes_at _ _ _ _ _ Hdis R) as Hn.
  rewrite no_shared_name_spec in Hn.
  apply NoDup_app; [assumption | assumption |].
  intros k Hkd Hkf. eauto.
Qed.

Lemma list_names_once_witness : NoDup ["d"; "b.txt"].
Proof.
  apply (list_names_once ["a"] sample); reflexivity.
Defined.

(** ** Entries registered through Path objects *)

(** X18: after [add_file] returned, the path is a file, [writable] tells
    whether a write provider was given, and [open_r], [open_w],
    [filesize] and [mtime] all raise [AttributeError], whatever providers
    were given: they call a method on the stored tuple. *)
Theorem access_after_add_file (p : list bytes) (r w s m : pyobj)
    (t t' : direntries) :
  add_file p r w s m t = (t', Return tt) ->
  is_file p t' = (t', Return true)
  /\ writable p t' = (t', Return (negb (is_None w)))
  /\ open_r p t' = (t', Raise AttributeError)
  /\ open_w p t' = (t', Raise AttributeError)
  /\ filesize p t' = (t', Raise AttributeError)
  /\ mtime p t' = (t', Raise AttributeError).
Proof.
  intros H. unfold add_file in H.
  apply lookup_after_add_fileentry in H as [_ G].
  split; [apply is_file_true; eauto|].
  split; [now apply (writable_of_tuple p t' r w s m)|].
  unfold open_r, open_w, filesize, mtime, bind, lift. rewrite G.
  repeat split.
Qed.

Lemma access_after_add_file_witness :
  let t' := state_of (add_file ["a"; "c.txt"] (PyObj 1) (PyObj 2) PyNone PyNone
                               sample) in
  is_file ["a"; "c.txt"] t' = (t', Return true)
  /\ writable ["a"; "c.txt"] t' = (t', Return true)
  /\ open_r ["a"; "c.txt"] t' = (t', Raise AttributeError)
  /\ open_w ["a"; "c.txt"] t' = (t', Raise AttributeError)
  /\ filesize ["a"; "c.txt"] t' = (t', Raise AttributeError)
  /\ mtime ["a"; "c.txt"] t' = (t', Raise AttributeError).
Proof.
  apply (access_after_add_file ["a"; "c.txt"] (PyObj 1) (PyObj 2) PyNone PyNone
           sample).
  reflexivity.
Defined.

(** X19: [add_file_from_path] freezes the answer of the source path's
    [writable()]: after it returned, the path is a file of the collection,
    the stored tuple has the source's [open_w] in its second slot if the
    source was writable and [None] otherwise, and [writable] there is what
    the source answered at registration. *)
Theorem add_file_from_path_freezes_writable (p : list bytes) (path : Path)
    (t t' : direntries) :
  add_file_from_path p path t = (t', Return tt) ->
  is_file p t' = (t', Return true)
  /\ writable p t' = (t', Return (path_writable path))
  /\ get_fileentry p t'
     = (t', Return (EntryTuple (PyObj (path_open_r path))
                               (if path_writable path
                                then PyObj (path_open_w path) else PyNone)
                               (PyObj (path_filesize path))
                               (PyObj (path_mtime path)))).
Proof.
  intros H. unfold add_file_from_path, add_file in H.
  apply lookup_after_add_fileentry in H as [_ G].
  split; [apply is_file_true; eauto|]. split; [|exact G].
  rewrite (writable_of_tuple p t' _ _ _ _ G).
  destruct (path_writable path); reflexivity.
Qed.

Lemma add_file_from_path_freezes_writable_witness :
  let t' := state_of (add_file_from_path ["a"; "ro"] ro_path sample) in
  is_file ["a"; "ro"] t' = (t', Return true)
  /\ writable ["a"; "ro"] t' = (t', Return false)
  /\ get_fileentry ["a"; "ro"] t'
     = (t', Return (EntryTuple (PyObj 5) PyNone (PyObj 7) (PyObj 8))).
Proof.
  apply (add_file_from_path_freezes_writable ["a"; "ro"] ro_path sample).
  reflexivity.
Defined.

(** ** How registration fails *)

(** X20: when [add_fileentry] raises at a non-empty path, either the path
    names a directory, the error is [IsADirectoryError] for it and the
    tree is unchanged, or a prefix [pre/seg] of the parent path holds a
    file and the error is [FileExistsError] for that prefix; in both cases
    no directory the tree had is lost and every path holds the file entry
    it held before. *)
Theorem add_fileentry_failure (p : list bytes) (e : fileentry)
    (t t' : direntries) (x : exn) :
  p <> [] ->
  add_fileentry p e t = (t', Raise x) ->
  ((x = IsADirectoryError (ArgBytes (join p))
    /\ t' = t
    /\ is_dir p t = (t, Return true))
   \/ (exists pre seg post,
         parent_parts p = pre ++ seg :: post
         /\ x = FileExistsError (ArgBytes (join (pre ++ [seg])))
         /\ is_file (pre ++ [seg]) t' = (t', Return true)))
  /\ (forall q, is_dir q t = (t, Return true) -> is_dir q t' = (t', Return true))
  /\ (forall q, file_at q t' = file_at q t).
Proof.
  intros Hp H. rewrite add_fileentry_unfold in H by assumption.
  unfold get_direntries in H.
  destruct (get_direntries_loop (parent_parts p) true 0 (parent_parts p) t)
    as [t1 [n|y]] eqn:L.
  - destruct (OD.contains (last_part p) (subdirs n)) eqn:C; [|discriminate].
    injection H as <- <-.
    destruct (loop_create_fresh _ _ _ _ _ _ L) as [[R ->]|[_ ->]];
      [|discriminate].
    split; [|split; auto].
    left. split; [reflexivity|]. split; [reflexivity|].
    apply is_dir_true. rewrite (resolve_parts _ t Hp), R.
    apply contains_get in C as [c C]. congruence.
  - injection H as <- <-. split; [|split].
    + right.
      destruct (loop_create_raise _ _ _ _ _ _ L)
        as (pre & seg & post & n & Hsplit & Hx & R & G & C).
      exists pre, seg, post. split; [assumption|]. split.
      * rewrite Hx, Hsplit. cbn [Nat.add]. now rewrite firstn_through.
      * apply is_file_true.
        rewrite get_fileentry_lookup
          by (intros E; apply app_eq_nil in E as [_ E]; discriminate).
        rewrite parent_parts_snoc, last_part_snoc, R.
        apply contains_false in G. rewrite G.
        apply contains_get in C as [e' C]. rewrite C. eauto.
    + intros q. rewrite !is_dir_true.
      apply (loop_create_keeps_dirs _ _ _ _ _ _ _ L).
    + intros q. apply (loop_create_file_at _ _ _ _ _ _ _ L).
Qed.

Lemma add_fileentry_failure_witness :
  ((FileExistsError (ArgBytes "a/b.txt")
    = IsADirectoryError (ArgBytes (join ["a"; "b.txt"; "c"; "f"]))
    /\ sample = sample
    /\ is_dir ["a"; "b.txt"; "c"; "f"] sample = (sample, Return true))
   \/ (exists pre seg post,
         parent_parts ["a"; "b.txt"; "c"; "f"] = pre ++ seg :: post
         /\ FileExistsError (ArgBytes "a/b.txt")
            = FileExistsError (ArgBytes (join (pre ++ [seg])))
         /\ is_file (pre ++ [seg]) sample = (sample, Return true))).
Proof.
  apply (add_fileentry_failure ["a"; "b.txt"; "c"; "f"] tuple_entry sample sample
           (FileExistsError (ArgBytes "a/b.txt")));
    [discriminate | reflexivity].
Defined.

(** ** Handles *)

(** X21: [open_r] and [open_w] never hand out [None]: when one of them
    returns, the tree is unchanged, the path holds a [FileEntry] instance
    and the handle is what its [open_r()] (respectively [open_w()])
    returned, which is not [None]. *)
Theorem open_returns_a_handle (p : list bytes) (t t' : direntries)
    (h : pyobj) :
  (open_r p t = (t', Return h) \/ open_w p t = (t', Return h)) ->
  t' = t /\ is_None h = false
  /\ exists o,
       get_fileentry p t = (t, Return (EntryObject o))
       /\ ((open_r p t = (t', Return h) /\ fe_open_r o = Returning h)
           \/ (open_w p t = (t', Return h) /\ fe_open_w o = Returning h)).
Proof.
  pose proof (get_fileentry_state p t) as Hs.
  intros [H|H]; pose proof H as H0; unfold open_r, open_w, bind, lift in H;
    destruct (get_fileentry p t) as [t1 [e|x]]; unfold state_of in Hs;
    simpl in Hs; subst t1; try discriminate;
    destruct e as [o|r w s m]; simpl in H; try discriminate.
  - destruct (fe_open_r o) as [|v] eqn:M; simpl in H; [discriminate|].
    destruct (is_None v) eqn:N; [discriminate|].
    injection H as <- <-. eauto 7.
  - destruct (fe_open_w o) as [|v] eqn:M; simpl in H; [discriminate|].
    destruct (is_None v) eqn:N; [discriminate|].
    injection H as <- <-. eauto 7.
Qed.

Lemma open_returns_a_handle_witness :
  sample = sample /\ is_None (PyObj 1) = false
  /\ exists o,
       get_fileentry ["a"; "b.txt"] sample = (sample, Return (EntryObject o))
       /\ ((open_r ["a"; "b.txt"] sample = (sample, Return (PyObj 1))
            /\ fe_open_r o = Returning (PyObj 1))
           \/ (open_w ["a"; "b.txt"] sample = (sample, Return (PyObj 1))
               /\ fe_open_w o = Returning (PyObj 1))).
Proof.
  apply (open_returns_a_handle ["a"; "b.txt"] sample sample (PyObj 1)).
  left. reflexivity.
Defined.

(** ** What a call can take away *)

(** X22: [mkdirs] of an existing directory returns and changes nothing,
    as does a creating [get_direntries], which returns the node the plain
    one returns. *)
Theorem mkdirs_of_directory (p : list bytes) (t : direntries) :
  is_dir p t = (t, Return true) ->
  mkdirs p t = (t, Return tt)
  /\ get_direntries p true t = get_direntries p false t.
Proof.
  intros H. apply is_dir_true in H.
  destruct (resolve p t) as [n|] eqn:R; [|congruence].
  rewrite mkdirs_unfold, get_direntries_lookup, R. unfold get_direntries.
  now rewrite (loop_create_existing _ _ _ _ _ R).
Qed.

Lemma mkdirs_of_directory_witness :
  mkdirs ["a"; "d"] sample = (sample, Return tt)
  /\ get_direntries ["a"; "d"] true sample
     = get_direntries ["a"; "d"] false sample.
Proof.
  apply (mkdirs_of_directory ["a"; "d"] sample). reflexivity.
Defined.

Lemma add_fileentry_keeps_dirs (p : list bytes) (e : fileentry)
    (t : direntries) (q : list bytes) :
  resolve q t <> None -> resolve q (state_of (add_fileentry p e t)) <> None.
Proof.
  intros Hq. destruct p as [|s p]; [exact Hq|].
  rewrite add_fileentry_unfold by discriminate. unfold get_direntries.
  destruct (get_direntries_loop (parent_parts (s :: p)) true 0
              (parent_parts (s :: p)) t) as [t1 [[f d]|x]] eqn:L.
  - pose proof (loop_create_keeps_dirs _ _ _ _ _ _ q L Hq) as Hq1.
    simpl. destruct (OD.contains (last_part (s :: p)) d); [exact Hq1|].
    unfold state_of. simpl.
    apply (store_files_is_dir _ _ _ _ _ (loop_create_resolve _ _ _ _ _ _ L)).
    exact Hq1.
  - exact (loop_create_keeps_dirs _ _ _ _ _ _ q L Hq).
Qed.

Lemma unlink_keeps_dirs (p : list bytes) (t : direntries) (q : list bytes) :
  resolve q t <> None -> resolve q (state_of (unlink p t)) <> None.
Proof.
  intros Hq. destruct p as [|s p]; [exact Hq|].
  rewrite unlink_unfold by discriminate.
  destruct (resolve (parent_parts (s :: p)) t) as [[f d]|] eqn:R; [|exact Hq].
  simpl. destruct (OD.contains (last_part (s :: p)) d); [exact Hq|].
  destruct (OD.contains (last_part (s :: p)) f); [|exact Hq].
  unfold state_of. simpl. now apply (store_files_is_dir _ _ _ _ _ R).
Qed.

(** X23: only [rmdir] takes a directory away: after any other call,
    returning or raising, every path that was a directory still is. *)
Theorem only_rmdir_removes_directories (c : fc_call) (t : direntries)
    (q : list bytes) :
  (forall p, c <> CallRmdir p) ->
  is_dir q t = (t, Return true) ->
  is_dir q (after c t) = (after c t, Return true).
Proof.
  intros Hc. rewrite !is_dir_true. intros Hq. destruct c; simpl.
  - now apply add_fileentry_keeps_dirs.
  - now rewrite get_fileentry_state.
  - unfold get_direntries.
    destruct create; [|now rewrite loop_lookup].
    destruct (get_direntries_loop parts true 0 parts t) as [t1 r] eqn:L.
    exact (loop_create_keeps_dirs _ _ _ _ _ _ q L Hq).
  - now rewrite open_r_state.
  - now rewrite open_w_state.
  - now rewrite list_lookup.
  - now rewrite filesize_state.
  - now rewrite mtime_state.
  - rewrite mkdirs_state. unfold get_direntries.
    destruct (get_direntries_loop parts true 0 parts t) as [t1 r] eqn:L.
    exact (loop_create_keeps_dirs _ _ _ _ _ _ q L Hq).
  - exfalso. now apply (Hc parts).
  - now apply unlink_keeps_dirs.
  - exact Hq.
  - exact Hq.
  - now rewrite is_file_lookup.
  - now rewrite is_dir_lookup.
  - now rewrite writable_state.
  - exact Hq.
  - exact Hq.
Qed.

Lemma only_rmdir_removes_directories_witness :
  is_dir ["a"; "d"] (after (CallUnlink ["a"; "b.txt"]) sample)
  = (after (CallUnlink ["a"; "b.txt"]) sample, Return true).
Proof.
  apply (only_rmdir_removes_directories (CallUnlink ["a"; "b.txt"]) sample);
    [discriminate | reflexivity].
Defined.

Lemma add_fileentry_keeps_files (p : list bytes) (e : fileentry)
    (t : direntries) (q : list bytes) :
  file_at q t <> None -> file_at q (state_of (add_fileentry p e t)) <> None.
Proof.
  intros Hq. destruct p as [|s p]; [exact Hq|].
  assert (Hp : s :: p <> []) by discriminate.
  rewrite add_fileentry_unfold by assumption. unfold get_direntries.
  destruct (get_direntries_loop (parent_parts (s :: p)) true 0
              (parent_parts (s :: p)) t) as [t1 [[f d]|x]] eqn:L;
    rewrite <- (loop_create_file_at _ _ _ _ _ _ q L) in Hq; [|exact Hq].
  simpl. destruct (OD.contains (last_part (s :: p)) d); [exact Hq|].
  unfold state_of. simpl.
  pose proof (loop_create_resolve _ _ _ _ _ _ L) as R.
  destruct q as [|k q]; [exact Hq|].
  destruct (list_eq_dec String.string_dec
              (parent_parts (k :: q)) (parent_parts (s :: p))) as [Heq|Hne].
  - rewrite store_files_file_at_here by congruence.
    unfold file_at in Hq. rewrite Heq, R in Hq. simpl in Hq.
    destruct (String.string_dec (last_part (s :: p)) (last_part (k :: q)))
      as [<-|Hk].
    + rewrite get_set_same. discriminate.
    + now rewrite get_set_other.
  - now rewrite (store_files_file_at_other _ _ _ _ _ _ R Hne).
Qed.

(** X24: only [unlink] takes a file away: in a tree whose dictionaries
    have each key once, after any other call, returning or raising, every
    path that held a file entry still holds one. *)
Theorem only_unlink_removes_files (c : fc_call) (t : direntries)
    (q : list bytes) :
  unique_keys t = true ->
  (forall p, c <> CallUnlink p) ->
  file_at q t <> None ->
  file_at q (after c t) <> None.
Proof.
  intros Huniq Hc Hq. destruct c; simpl.
  - now apply add_fileentry_keeps_files.
  - now rewrite get_fileentry_state.
  - unfold get_direntries.
    destruct create; [|now rewrite loop_lookup].
    destruct (get_direntries_loop parts true 0 parts t) as [t1 r] eqn:L.
    unfold state_of. simpl. now rewrite (loop_create_file_at _ _ _ _ _ _ q L).
  - now rewrite open_r_state.
  - now rewrite open_w_state.
  - now rewrite list_lookup.
  - now rewrite filesize_state.
  - now rewrite mtime_state.
  - rewrite mkdirs_state. unfold get_direntries.
    destruct (get_direntries_loop parts true 0 parts t) as [t1 r] eqn:L.
    unfold state_of. simpl. now rewrite (loop_create_file_at _ _ _ _ _ _ q L).
  - destruct (rmdir parts t) as [t' [[]|x]] eqn:H; unfold state_of; simpl.
    + destruct (rmdir_success_effect parts t t' Huniq H) as (_ & _ & Hf).
      now rewrite Hf.
    + now rewrite (rmdir_failure_keeps_tree parts t t' x H).
  - exfalso. now apply (Hc parts).
  - exact Hq.
  - exact Hq.
  - now rewrite is_file_lookup.
  - now rewrite is_dir_lookup.
  - now rewrite writable_state.
  - exact Hq.
  - exact Hq.
Qed.

Lemma only_unlink_removes_files_witness :
  file_at ["a"; "b.txt"] (after (CallRmdir ["a"; "d"]) sample) <> None.
Proof.
  apply (only_unlink_removes_files (CallRmdir ["a"; "d"]) sample);
    [reflexivity | discriminate | discriminate].
Defined.
